(** * spacy-llm.py: sentence trimming and occurrence aggregation

    A shallow embedding of [backend/python-scripts/spacy-llm.py] and the
    properties of its three functions [trim_sentence_with_occurrence],
    [extract_pos_tags] and [main].

    Python [str] values are modelled by [string]; a character stands for
    the code point of the same number, so the model covers text whose code
    points are below 256 (ASCII and Latin-1, which holds the German
    letters).  Python [int] values are modelled by [Z]. *)

From Stdlib Require Import ZArith Lia List Ascii String Bool.
From stdpp Require Import base gmap sets list strings sorting.

#[local] Set Warnings "-clear-no-such-hyp".

Local Open Scope Z_scope.

(** ** Python string primitives used by the script *)

Module PyStr.

(** Code points below 256 for which [str.isspace] holds; these are the
    separators of [str.split()] and the characters removed by
    [str.strip()]. *)
Definition isspace (c : ascii) : bool :=
  let n := N_of_ascii c in
  ((9 <=? n) && (n <=? 13) || (28 <=? n) && (n <=? 32)
   || (n =? 133) || (n =? 160))%N.

(** [str.lower] on one code point below 256: [A-Z] and the Latin-1
    capitals U+00C0..U+00DE (the multiplication sign U+00D7 apart) move
    up by 32. *)
Definition lower_char (c : ascii) : ascii :=
  let n := N_of_ascii c in
  if ((65 <=? n) && (n <=? 90)
      || (192 <=? n) && (n <=? 222) && negb (n =? 215))%N
  then ascii_of_N (n + 32) else c.

Fixpoint lower (s : string) : string :=
  match s with
  | EmptyString => EmptyString
  | String c s' => String (lower_char c) (lower s')
  end.

(** [len(s)] *)
Definition len (s : string) : Z := Z.of_nat (String.length s).

(** [s.startswith(p)] *)
Definition startswith (s p : string) : bool := String.prefix p s.

(** [s.lstrip(..)], [s.rstrip(..)] and [s.strip(..)] for a set of
    characters given by its membership test. *)
Fixpoint lstrip_by (drop : ascii -> bool) (s : string) : string :=
  match s with
  | EmptyString => EmptyString
  | String c s' => if drop c then lstrip_by drop s' else s
  end.

Fixpoint rstrip_by (drop : ascii -> bool) (s : string) : string :=
  match s with
  | EmptyString => EmptyString
  | String c s' =>
      match rstrip_by drop s' with
      | EmptyString => if drop c then EmptyString else String c EmptyString
      | r => String c r
      end
  end.

Definition strip_by (drop : ascii -> bool) (s : string) : string :=
  rstrip_by drop (lstrip_by drop s).

(** [s.strip()] *)
Definition strip (s : string) : string := strip_by isspace s.

Fixpoint mem_char (c : ascii) (chars : string) : bool :=
  match chars with
  | EmptyString => false
  | String d chars' => Ascii.eqb c d || mem_char c chars'
  end.

(** [s.strip(chars)] *)
Definition strip_chars (chars : string) (s : string) : string :=
  strip_by (fun c => mem_char c chars) s.

(** [s.split()]: the maximal runs of non-whitespace characters, in
    order.  [cur] is the run being read. *)
Fixpoint split_go (cur : string) (s : string) : list string :=
  match s with
  | EmptyString =>
      match cur with EmptyString => [] | _ => [cur] end
  | String c s' =>
      if isspace c then
        match cur with
        | EmptyString => split_go EmptyString s'
        | _ => cur :: split_go EmptyString s'
        end
      else split_go (cur +:+ String c EmptyString) s'
  end.

Definition split (s : string) : list string := split_go EmptyString s.

(** [sep.join(ws)] *)
Fixpoint join (sep : string) (ws : list string) : string :=
  match ws with
  | [] => EmptyString
  | w :: ws' =>
      match ws' with
      | [] => w
      | _ => w +:+ sep +:+ join sep ws'
      end
  end.

(** A slice bound as Python resolves it against a sequence of length
    [n]: a negative bound counts from the end, and both kinds are
    clamped to [0..n]. *)
Definition slice_bound (n i : Z) : Z :=
  if i <? 0 then Z.max 0 (i + n) else Z.min i n.

(** [l[lo:hi]] *)
Definition slice {A} (l : list A) (lo hi : Z) : list A :=
  let n := Z.of_nat (length l) in
  let lo' := slice_bound n lo in
  let hi' := slice_bound n hi in
  firstn (Z.to_nat (hi' - lo')) (skipn (Z.to_nat lo') l).

(** [len(s.split())] *)
Definition word_count (s : string) : Z := Z.of_nat (length (split s)).

End PyStr.

Import PyStr.

(** ** Exceptions

    The Python exceptions the script can meet, and a result type for the
    code that may raise them. *)

Inductive exc : Type :=
  | ZeroDivisionError
  | KeyError (key : string)
  | AttributeError (type_name attribute : string)
  | OtherError (message : string).

Inductive result (A : Type) : Type :=
  | Ok (a : A)
  | Raise (e : exc).

Arguments Ok {A} a.
Arguments Raise {A} e.

Definition bind {A B} (r : result A) (k : A -> result B) : result B :=
  match r with
  | Ok a => k a
  | Raise e => Raise e
  end.

Notation "'let*' x ':=' r 'in' k" := (bind r (fun x => k))
  (at level 10, x name, r at level 100, k at level 200).

(** [a // b] *)
Definition floordiv (a b : Z) : result Z :=
  if b =? 0 then Raise ZeroDivisionError else Ok (a / b).

(** [d[k]] *)
Definition getitem {V} (d : gmap string V) (k : string) : result V :=
  match d !! k with
  | Some v => Ok v
  | None => Raise (KeyError k)
  end.

(** ** The trimmer *)

(** The characters of the literal passed to [strip] at lines 48 and 52:
    [. , ! ? ; : ( ) [ ] { }], the double quote (code 34) and the single
    quote. *)
Definition punctuation : string :=
  (".,!?;:()[]{}" +:+ String (ascii_of_nat 34) "'")%string.

Definition clean (w : string) : string := strip_chars punctuation (lower w).

(** The test made on one word by the body of the loop at lines 50-62:
    the [if] at line 54 and the [elif] at lines 59-60. *)
Definition exact_match (word_clean occurrence_clean : string) : bool :=
  String.eqb word_clean occurrence_clean.

Definition fuzzy_match (word_clean occurrence_clean : string) : bool :=
  (Z.abs (len word_clean - len occurrence_clean) <=? 2)
  && (startswith occurrence_clean word_clean
      || startswith word_clean occurrence_clean).

(** The loop at lines 49-62: [i] is the index of the head of [words];
    the result is the value of [occurrence_pos] when the loop ends, [-1]
    when no [break] was taken. *)
Fixpoint find_occurrence (i : Z) (words : list string)
    (occurrence_clean : string) : Z :=
  match words with
  | [] => -1
  | word :: rest =>
      let word_clean := clean word in
      if exact_match word_clean occurrence_clean then i
      else if fuzzy_match word_clean occurrence_clean then i
      else find_occurrence (i + 1) rest occurrence_clean
  end.

(** Lines 70-84: the bounds [(start, end)] of the slice kept around
    [occurrence_pos] in a list of [n] words. *)
Definition window (n occurrence_pos max_words : Z) : result (Z * Z) :=
  let* half_before := floordiv max_words 2 in
  let words_before := Z.min occurrence_pos half_before in
  let* half_after := floordiv max_words 2 in
  let words_after := Z.min (n - occurrence_pos - 1) half_after in
  let remaining := max_words - (words_before + words_after + 1) in
  let* context :=
    (if 0 <? remaining then
       let* half_remaining := floordiv remaining 2 in
       let extra_before :=
         Z.min (occurrence_pos - words_before) half_remaining in
       let extra_after :=
         Z.min (n - occurrence_pos - 1 - words_after)
               (remaining - extra_before) in
       Ok (words_before + extra_before, words_after + extra_after)
     else Ok (words_before, words_after)) in
  let '(words_before, words_after) := context in
  let start := Z.max 0 (occurrence_pos - words_before) in
  let end_ := Z.min n (occurrence_pos + words_after + 1) in
  Ok (start, end_).

Definition trim_sentence_with_occurrence
    (sentence occurrence_word : string) (max_words : Z) : result string :=
  let words := split sentence in
  if Z.of_nat (length words) <=? max_words then Ok sentence
  else
    let occurrence_clean := clean occurrence_word in
    let occurrence_pos := find_occurrence 0 words occurrence_clean in
    if occurrence_pos =? -1 then Ok (join " " (slice words 0 max_words))
    else
      let* bounds :=
        window (Z.of_nat (length words)) occurrence_pos max_words in
      let '(start, end_) := bounds in
      Ok (join " " (slice words start end_)).

(** ** The annotator's output

    What the script reads of a spaCy [Doc]: for a token its index in the
    document, [text], [lemma_], [pos_], [is_punct] and [is_space]; for a
    sentence span the range of token indices it covers and its [text]. *)

Record Token : Type := {
  tok_i : nat;
  tok_text : string;
  tok_lemma_ : string;
  tok_pos_ : string;
  tok_is_punct : bool;
  tok_is_space : bool
}.

Record Span : Type := {
  sent_start : nat;
  sent_end : nat;
  sent_text : string
}.

Record Doc : Type := {
  doc_tokens : list Token;
  doc_sents : list Span
}.

(** [token in sent] *)
Definition token_in (token : Token) (sent : Span) : bool :=
  ((sent_start sent <=? tok_i token) && (tok_i token <? sent_end sent))%nat.

(** ** The extractor *)

(** One POS category: its set of lemmas ([nouns]), its map from a lemma
    to the phrases kept for it ([noun_occurrences]) and its map from a
    lemma to the sentences already used ([noun_original_sentences]). *)
Record Bucket : Type := {
  lemmas : gset string;
  occurrences : gmap string (list string);
  original_sentences : gmap string (gset string)
}.

Record State : Type := {
  noun : Bucket;
  verb : Bucket;
  adjective : Bucket
}.

Definition empty_bucket : Bucket :=
  {| lemmas := ∅; occurrences := ∅; original_sentences := ∅ |}.

Definition initial_state : State :=
  {| noun := empty_bucket; verb := empty_bucket; adjective := empty_bucket |}.

(** Lines 154-164 (and, on the verb and adjective variables, lines
    166-176 and 178-188, which differ from them in the names only). *)
Definition add_occurrence (lemma containing_sentence token_text : string)
    (b : Bucket) : result Bucket :=
  let lemmas1 := lemmas b ∪ {[ lemma ]} in
  let '(orig1, occ1) :=
    match original_sentences b !! lemma with
    | None =>
        (<[ lemma := ∅ ]> (original_sentences b),
         <[ lemma := [] ]> (occurrences b))
    | Some _ => (original_sentences b, occurrences b)
    end in
  let* seen := getitem orig1 lemma in
  if decide (containing_sentence ∈ seen) then
    Ok {| lemmas := lemmas1; occurrences := occ1;
          original_sentences := orig1 |}
  else
    let orig2 := <[ lemma := seen ∪ {[ containing_sentence ]} ]> orig1 in
    let* trimmed_phrase :=
      trim_sentence_with_occurrence containing_sentence token_text 20 in
    let* phrases := getitem occ1 lemma in
    Ok {| lemmas := lemmas1;
          occurrences := <[ lemma := phrases ++ [trimmed_phrase] ]> occ1;
          original_sentences := orig2 |}.

(** Lines 143-147: the stripped text of the first sentence that holds the
    token, [None] when there is none. *)
Fixpoint find_containing_sentence (sents : list Span) (token : Token)
    : option string :=
  match sents with
  | [] => None
  | sent :: rest =>
      if token_in token sent then Some (strip (sent_text sent))
      else find_containing_sentence rest token
  end.

(** The body of the loop at lines 127-188 for one token. *)
Definition process_token (doc : Doc) (token : Token) (st : State)
    : result State :=
  if tok_is_punct token || tok_is_space token then Ok st
  else
    let lemma := strip (lower (tok_lemma_ token)) in
    if String.eqb lemma "" then Ok st
    else
      let token_text := tok_text token in
      match find_containing_sentence (doc_sents doc) token with
      | None => Ok st
      | Some containing_sentence =>
          if String.eqb containing_sentence "" then Ok st
          else if String.eqb (tok_pos_ token) "NOUN" then
            let* b := add_occurrence lemma containing_sentence token_text (noun st) in
            Ok {| noun := b; verb := verb st; adjective := adjective st |}
          else if String.eqb (tok_pos_ token) "VERB" then
            let* b := add_occurrence lemma containing_sentence token_text (verb st) in
            Ok {| noun := noun st; verb := b; adjective := adjective st |}
          else if String.eqb (tok_pos_ token) "ADJ" then
            let* b := add_occurrence lemma containing_sentence token_text
                   (adjective st) in
            Ok {| noun := noun st; verb := verb st; adjective := b |}
          else Ok st
      end.

(** The loop [for token in doc]. *)
Fixpoint process_tokens (doc : Doc) (tokens : list Token) (st : State)
    : result State :=
  match tokens with
  | [] => Ok st
  | token :: rest =>
      let* st' := process_token doc token st in
      process_tokens doc rest st'
  end.

(** [sorted(..)] on strings: ascending code-point order. *)
Definition sorted (l : list string) : list string := merge_sort String.le l.

(** One entry of an occurrence list, the dict
    [{key_name: lemma, "phrase": phrase}] where [key_name] is
    ["infinitive"], ["noun"] or ["adjective"]. *)
Record Occurrence : Type := {
  occ_key_name : string;
  occ_lemma : string;
  occ_phrase : string
}.

(** Lines 191-213: the flat list built from one occurrence map. *)
Definition occurrences_list (key_name : string)
    (occ : gmap string (list string)) : result (list Occurrence) :=
  foldr
    (fun k rest =>
       let* phrases := getitem occ k in
       let* tail := rest in
       Ok (map (fun phrase =>
                  {| occ_key_name := key_name; occ_lemma := k;
                     occ_phrase := phrase |}) phrases ++ tail))
    (Ok []) (sorted (elements (dom occ))).

Record Result : Type := {
  nouns : list string;
  verbs : list string;
  adjectives : list string;
  verb_occurrences : list Occurrence;
  noun_occurrences : list Occurrence;
  adjective_occurrences : list Occurrence
}.

Definition empty_result : Result :=
  {| nouns := []; verbs := []; adjectives := [];
     verb_occurrences := []; noun_occurrences := [];
     adjective_occurrences := [] |}.

(** Lines 190-223. *)
Definition build_result (st : State) : result Result :=
  let* verb_occurrences_list := occurrences_list "infinitive" (occurrences (verb st)) in
  let* noun_occurrences_list := occurrences_list "noun" (occurrences (noun st)) in
  let* adjective_occurrences_list :=
    occurrences_list "adjective" (occurrences (adjective st)) in
  Ok {| nouns := sorted (elements (lemmas (noun st)));
        verbs := sorted (elements (lemmas (verb st)));
        adjectives := sorted (elements (lemmas (adjective st)));
        verb_occurrences := verb_occurrences_list;
        noun_occurrences := noun_occurrences_list;
        adjective_occurrences := adjective_occurrences_list |}.

(** [extract_pos_tags], over the annotator [nlp]. *)
Definition extract_pos_tags (nlp : string -> Doc) (text : string)
    : result Result :=
  if String.eqb text "" || String.eqb (strip text) "" then Ok empty_result
  else
    let doc := nlp text in
    let* st := process_tokens doc (doc_tokens doc) initial_state in
    build_result st.

(** ** The entry point *)

(** What [main] observes of the value [json.loads] returns: a string, a
    dict with its items, or a value of another type ([None], a number, a
    bool, a list), of which only the type's name and the truth value
    matter here. *)
#[local] Set Warnings "-register-all".

Inductive pyval : Type :=
  | PyStr (s : string)
  | PyDict (items : list (string * pyval))
  | PyOther (type_name : string) (truth : bool).

(** The three ways [json.loads(input_data)] can end. *)
Inductive loads_result : Type :=
  | Loaded (data : pyval)
  | JSONDecodeError
  | LoadsRaised (e : exc).

Definition py_type_name (v : pyval) : string :=
  match v with
  | PyStr _ => "str"
  | PyDict _ => "dict"
  | PyOther type_name _ => type_name
  end.

(** [bool(v)], as [not v] needs it. *)
Definition truthy (v : pyval) : bool :=
  match v with
  | PyStr s => negb (String.eqb s "")
  | PyDict items => match items with [] => false | _ => true end
  | PyOther _ truth => truth
  end.

Fixpoint dict_lookup (items : list (string * pyval)) (key : string)
    : option pyval :=
  match items with
  | [] => None
  | (k, v) :: rest => if String.eqb k key then Some v else dict_lookup rest key
  end.

(** [data.get(key, default)]; only a dict has the method. *)
Definition py_get (data : pyval) (key : string) (default : pyval)
    : result pyval :=
  match data with
  | PyDict items =>
      Ok (match dict_lookup items key with Some v => v | None => default end)
  | _ => Raise (AttributeError (py_type_name data) "get")
  end.

(** Lines 239-245: the transcript read from the input. *)
Definition read_transcript (json_loads : string -> loads_result)
    (input_data : string) : result pyval :=
  match json_loads input_data with
  | Loaded data => py_get data "transcript" (PyStr "")
  | JSONDecodeError => Ok (PyStr (strip input_data))
  | LoadsRaised e => Raise e
  end.

(** How a run of [main] ends: what it prints, where, and the exit
    status.  A printed JSON object is given by its content. *)
Inductive Outcome : Type :=
  | PrintedResult (r : Result)
  | PrintedError (message : string)
  | CaughtException (e : exc).

(** [extract_pos_tags(transcript)] for a value of any type: [text.strip()]
    at line 100 exists for a string only. *)
Definition extract_pos_tags_dyn (nlp : string -> Doc) (transcript : pyval)
    : result Result :=
  match transcript with
  | PyStr text => extract_pos_tags nlp text
  | _ =>
      if truthy transcript
      then Raise (AttributeError (py_type_name transcript) "strip")
      else Ok empty_result
  end.

Definition main (json_loads : string -> loads_result) (nlp : string -> Doc)
    (input_data : string) : Outcome :=
  if String.eqb input_data "" then PrintedError "No input provided"
  else
    match read_transcript json_loads input_data with
    | Raise e => CaughtException e
    | Ok transcript =>
        if negb (truthy transcript) then PrintedError "Transcript is empty"
        else
          match extract_pos_tags_dyn nlp transcript with
          | Raise e => CaughtException e
          | Ok result => PrintedResult result
          end
    end.

(** * Notions used in the statements *)

(** A word: a non-empty string without whitespace. *)
Fixpoint no_space (s : string) : bool :=
  match s with
  | EmptyString => true
  | String c s' => negb (isspace c) && no_space s'
  end.

Definition is_word (w : string) : Prop := w <> EmptyString /\ no_space w = true.

Definition matches (occurrence_clean word : string) : bool :=
  exact_match (clean word) occurrence_clean
  || fuzzy_match (clean word) occurrence_clean.

(** A sentence of 21 words with the occurrence in the middle. *)
Definition sentence_21 : string :=
  "x x x x x x x x x x Hund x x x x x x x x x x".

(** A sentence of 26 words that begins with a word passing the fuzzy test
    only for the occurrence ["Hundes"], and ends with the occurrence
    itself. *)
Definition sentence_fuzzy_first : string :=
  "Hund x x x x x x x x x x x x x x x x x x x x x x x x Hundes".

(** A token as the loop body sees it: [None] when one of the [continue]s
    at lines 129-150 skips it, otherwise its POS tag and the lemma, the
    containing sentence and the token text the body works with. *)
Definition mention_of (doc : Doc) (token : Token)
    : option (string * (string * string * string)) :=
  if tok_is_punct token || tok_is_space token then None
  else
    let lemma := strip (lower (tok_lemma_ token)) in
    if decide (lemma = EmptyString) then None
    else
      match find_containing_sentence (doc_sents doc) token with
      | None => None
      | Some containing_sentence =>
          if decide (containing_sentence = EmptyString) then None
          else Some (tok_pos_ token,
                     (lemma, containing_sentence, tok_text token))
      end.

(** The (lemma, sentence, token text) triples of the tokens of one POS
    category, in document order. *)
Definition mentions (doc : Doc) (pos : string) (tokens : list Token)
    : list (string * string * string) :=
  omap (fun token =>
          match mention_of doc token with
          | Some (p, m) => if decide (p = pos) then Some m else None
          | None => None
          end) tokens.

(** The (sentence, token text) pairs of one lemma, in the same order. *)
Definition of_lemma (L : string) (evs : list (string * string * string))
    : list (string * string) :=
  omap (fun '(L', s, w) => if decide (L' = L) then Some (s, w) else None) evs.

(** The pairs whose sentence was not met before, in order: the first pair
    of every distinct sentence.  [seen] holds the sentences met so far. *)
Fixpoint first_seen (seen : list string) (ms : list (string * string))
    : list (string * string) :=
  match ms with
  | [] => []
  | (s, w) :: ms' =>
      if decide (s ∈ seen) then first_seen seen ms'
      else (s, w) :: first_seen (s :: seen) ms'
  end.

(** [phrase] is what the trimmer returns for the sentence and the token
    text of [sw] with the budget of 20 words. *)
Definition phrase_for (phrase : string) (sw : string * string) : Prop :=
  trim_sentence_with_occurrence sw.1 sw.2 20 = Ok phrase.

(** The state of one category after the triples [evs]. *)
Record bucket_inv (b : Bucket) (evs : list (string * string * string))
    : Prop := {
  inv_lemmas : forall L, L ∈ lemmas b <-> of_lemma L evs <> [];
  inv_orig : forall L,
    original_sentences b !! L =
      match of_lemma L evs with
      | [] => None
      | ms => Some (list_to_set ms.*1)
      end;
  inv_occ : forall L,
    match occurrences b !! L with
    | None => of_lemma L evs = []
    | Some phrases =>
        of_lemma L evs <> []
        /\ Forall2 phrase_for phrases (first_seen [] (of_lemma L evs))
    end
}.

Definition state_inv (doc : Doc) (st : State) (toks : list Token) : Prop :=
  bucket_inv (noun st) (mentions doc "NOUN" toks)
  /\ bucket_inv (verb st) (mentions doc "VERB" toks)
  /\ bucket_inv (adjective st) (mentions doc "ADJ" toks).

Definition entry (key_name k phrase : string) : Occurrence :=
  {| occ_key_name := key_name; occ_lemma := k; occ_phrase := phrase |}.

(** The entries of the keys [ks], key after key. *)
Definition entries (key_name : string) (occ : gmap string (list string))
    (ks : list string) : list Occurrence :=
  flat_map (fun k => map (entry key_name k) (default [] (occ !! k))) ks.

(** The phrases listed under the lemma [L], in the order of the list. *)
Definition phrases_of (L : string) (occs : list Occurrence) : list string :=
  occ_phrase <$> filter (fun o => occ_lemma o = L) occs.

(** The text is empty or holds whitespace only. *)
Fixpoint all_space (s : string) : bool :=
  match s with
  | EmptyString => true
  | String c s' => isspace c && all_space s'
  end.

(** A fabricated document, the annotation of
    ["Der Hund sieht den Hund. Der Hund bellt."]: two sentences, the noun
    [Hund] twice in the first and once in the second. *)
Definition token (i : nat) (text lemma_ pos_ : string) : Token :=
  {| tok_i := i; tok_text := text; tok_lemma_ := lemma_; tok_pos_ := pos_;
     tok_is_punct := String.eqb pos_ "PUNCT"; tok_is_space := false |}.

Definition doc_hund : Doc :=
  {| doc_tokens :=
       [ token 0 "Der" "der" "DET"; token 1 "Hund" "Hund" "NOUN";
         token 2 "sieht" "sehen" "VERB"; token 3 "den" "der" "DET";
         token 4 "Hund" "Hund" "NOUN"; token 5 "." "." "PUNCT";
         token 6 "Der" "der" "DET"; token 7 "Hund" "Hund" "NOUN";
         token 8 "bellt" "bellen" "VERB"; token 9 "." "." "PUNCT" ];
     doc_sents :=
       [ {| sent_start := 0; sent_end := 6;
            sent_text := "Der Hund sieht den Hund." |};
         {| sent_start := 6; sent_end := 10;
            sent_text := "Der Hund bellt." |} ] |}.

Definition nlp_hund : string -> Doc := fun _ => doc_hund.

(** What follows a transcript that is a non-empty string. *)
Definition run_extraction (nlp : string -> Doc) (text : string) : Outcome :=
  match extract_pos_tags nlp text with
  | Ok r => PrintedResult r
  | Raise e => CaughtException e
  end.

(** A decoder that refuses its input, for inputs that are not JSON. *)
Definition refusing_decoder : string -> loads_result :=
  fun _ => JSONDecodeError.

(** A line of plain text as a shell pipe delivers it, with its newline. *)
Definition berlin_line : string :=
  "Berlin ist gross." +:+ String (ascii_of_nat 10) EmptyString.

(** The token [t] is one the loop body files under the POS tag [pos] and
    the lemma [L]: it is neither punctuation nor space, its lower-cased,
    stripped lemma is [L] and is not empty, and the first sentence that
    holds it has a text that is not blank. *)
Definition qualifies (doc : Doc) (pos L : string) (t : Token) : Prop :=
  tok_is_punct t = false /\ tok_is_space t = false
  /\ tok_pos_ t = pos
  /\ strip (lower (tok_lemma_ t)) = L /\ L <> EmptyString
  /\ exists s, find_containing_sentence (doc_sents doc) t = Some s
               /\ s <> EmptyString.

(** The entry [o] comes from a token of the document with the POS tag
    [pos]: its lemma is the token's, and its phrase is what the trimmer
    returns for the stripped text of a sentence holding the token, the
    token's text and the budget of 20 words. *)
Definition entry_from (doc : Doc) (pos : string) (o : Occurrence) : Prop :=
  exists t sent,
    t ∈ doc_tokens doc /\ sent ∈ doc_sents doc /\ token_in t sent = true
    /\ tok_pos_ t = pos
    /\ strip (lower (tok_lemma_ t)) = occ_lemma o
    /\ trim_sentence_with_occurrence (strip (sent_text sent)) (tok_text t) 20
       = Ok (occ_phrase o).

(** A lemma as the result lists it: not empty, in lower case and without
    whitespace at either end. *)
Definition normalised (L : string) : Prop :=
  L <> EmptyString /\ lower L = L /\ strip L = L.

(** A decoder that returns the value [data], for inputs that are the
    JSON text of [data]. *)
Definition decoder_returning (data : pyval) : string -> loads_result :=
  fun _ => Loaded data.

(** What the extractor returns for [doc_hund]. *)
Definition result_hund : Result :=
  {| nouns := ["hund"%string];
     verbs := ["bellen"; "sehen"]%string;
     adjectives := [];
     verb_occurrences :=
       [ entry "infinitive" "bellen" "Der Hund bellt.";
         entry "infinitive" "sehen" "Der Hund sieht den Hund." ];
     noun_occurrences :=
       [ entry "noun" "hund" "Der Hund sieht den Hund.";
         entry "noun" "hund" "Der Hund bellt." ];
     adjective_occurrences := [] |}.

(** * Properties *)

(** ** Strings *)

Example split_ex :
  split "  Der  Hund, der bellt.  " = ["Der"; "Hund,"; "der"; "bellt."]%string.
Proof. reflexivity. Qed.

Example clean_ex : clean "(Hund)," = "hund"%string.
Proof. reflexivity. Qed.

Example lower_ex : lower "HUND Hund" = "hund hund"%string.
Proof. reflexivity. Qed.

Lemma app_nil_l (t : string) : EmptyString +:+ t = t.
Proof. reflexivity. Qed.

Lemma app_cons (c : ascii) (s t : string) :
  String c s +:+ t = String c (s +:+ t).
Proof. reflexivity. Qed.

Lemma app_empty_r (s : string) : s +:+ EmptyString = s.
Proof.
  induction s as [|c s IH]; [reflexivity|]. by rewrite app_cons, IH.
Qed.

Lemma app_snoc (s t : string) (c : ascii) :
  (s +:+ String c EmptyString) +:+ t = s +:+ String c t.
Proof.
  induction s as [|d s IH]; [reflexivity|]. by rewrite !app_cons, IH.
Qed.

Lemma no_space_snoc (s : string) (c : ascii) :
  no_space s = true -> isspace c = false ->
  no_space (s +:+ String c EmptyString) = true.
Proof.
  induction s as [|d s IH]; intros Hs Hc.
  - rewrite app_nil_l. cbn. by rewrite Hc.
  - cbn in Hs. apply andb_true_iff in Hs as [Hd Hs].
    rewrite app_cons. cbn. rewrite Hd. cbn. auto.
Qed.

Lemma split_go_words (s cur : string) :
  no_space cur = true -> Forall is_word (split_go cur s).
Proof.
  revert cur. induction s as [|c s IH]; intros cur Hcur; cbn.
  - destruct cur; [constructor|]. repeat constructor; [discriminate | done].
  - destruct (isspace c) eqn:Hc.
    + destruct cur; [by apply IH|].
      constructor; [by split | by apply IH].
    + apply IH. by apply no_space_snoc.
Qed.

(** Every element of [s.split()] is a word. *)
Lemma split_words (s : string) : Forall is_word (split s).
Proof. by apply split_go_words. Qed.

Lemma split_go_word (w cur s : string) :
  no_space w = true -> split_go cur (w +:+ s) = split_go (cur +:+ w) s.
Proof.
  revert cur. induction w as [|c w IH]; intros cur Hw.
  - by rewrite app_nil_l, app_empty_r.
  - cbn in Hw. apply andb_true_iff in Hw as [Hc Hw].
    apply negb_true_iff in Hc. rewrite app_cons. cbn [split_go].
    rewrite Hc, IH by done. by rewrite app_snoc.
Qed.

(** Splitting what [' '.join] made of a list of words gives the words
    back. *)
Lemma split_join (ws : list string) :
  Forall is_word ws -> split (join " " ws) = ws.
Proof.
  unfold split. induction 1 as [|w ws [Hne Hw] Hws IH]; [reflexivity|].
  cbn [join]. destruct ws as [|w' ws].
  - rewrite <- (app_empty_r w) at 1. rewrite split_go_word by done.
    rewrite app_nil_l. cbn. by destruct w.
  - rewrite split_go_word by done. rewrite app_nil_l, app_cons, app_nil_l.
    cbn [split_go]. change (isspace " ") with true. cbn iota.
    rewrite IH. by destruct w.
Qed.

(** ** Slices *)

Lemma slice_inside {A} (l : list A) (lo hi : Z) :
  0 <= lo -> lo <= hi -> hi <= Z.of_nat (length l) ->
  slice l lo hi = firstn (Z.to_nat (hi - lo)) (skipn (Z.to_nat lo) l).
Proof.
  intros Hlo Hle Hhi. unfold slice, slice_bound.
  destruct (Z.ltb_spec lo 0); [lia|]. destruct (Z.ltb_spec hi 0); [lia|].
  by rewrite !Z.min_l by lia.
Qed.

Lemma slice_length {A} (l : list A) (lo hi : Z) :
  0 <= lo -> lo <= hi -> hi <= Z.of_nat (length l) ->
  Z.of_nat (length (slice l lo hi)) = hi - lo.
Proof.
  intros. rewrite slice_inside by done.
  rewrite length_take, length_drop. lia.
Qed.

Lemma slice_lookup {A} (l : list A) (lo hi p : Z) :
  0 <= lo -> lo <= p -> p < hi -> hi <= Z.of_nat (length l) ->
  slice l lo hi !! Z.to_nat (p - lo) = l !! Z.to_nat p.
Proof.
  intros. rewrite slice_inside by lia.
  rewrite lookup_take_lt by lia. rewrite lookup_drop. f_equal. lia.
Qed.

Lemma slice_sublist {A} (P : A -> Prop) (l : list A) (lo hi : Z) :
  Forall P l -> Forall P (slice l lo hi).
Proof. intros H. unfold slice. by apply Forall_take, Forall_drop. Qed.

(** ** The search for the occurrence *)

(** The loop stops at the first word that passes either test. *)
Lemma find_occurrence_spec (words : list string) (oc : string) (i : Z) :
  match list_find (fun w => matches oc w = true) words with
  | Some (k, _) => find_occurrence i words oc = i + Z.of_nat k
  | None => find_occurrence i words oc = -1
  end.
Proof.
  revert i. induction words as [|w words IH]; intros i; [reflexivity|].
  cbn [list_find find_occurrence].
  destruct (decide (matches oc w = true)) as [Hm|Hm]; unfold matches in Hm.
  - cbn. destruct (exact_match (clean w) oc); [lia|].
    cbn in Hm. rewrite Hm. lia.
  - apply not_true_is_false, orb_false_iff in Hm as [-> ->].
    specialize (IH (i + 1)).
    destruct (list_find _ words) as [[k x]|]; cbn; [lia | done].
Qed.

Lemma find_occurrence_range (words : list string) (oc : string) (p : Z) :
  find_occurrence 0 words oc = p -> p <> -1 ->
  0 <= p < Z.of_nat (length words).
Proof.
  intros Hp Hne. pose proof (find_occurrence_spec words oc 0) as H.
  destruct (list_find _ words) as [[k x]|] eqn:Hk; [|congruence].
  apply list_find_Some in Hk as (Hk & _ & _).
  apply lookup_lt_Some in Hk. lia.
Qed.

(** ** The window *)

Lemma floordiv_2 (a : Z) : floordiv a 2 = Ok (a / 2).
Proof. reflexivity. Qed.

(** [window] never raises. *)
Lemma window_total (n p m : Z) : exists b, window n p m = Ok b.
Proof.
  unfold window. rewrite !floordiv_2. cbn [bind].
  destruct (0 <? _); rewrite ?floordiv_2; cbn [bind]; eauto.
Qed.

(** For a position inside the sentence and a non-negative budget, the
    window lies inside the sentence, holds the position and has at most
    [max_words + 1] words. *)
Lemma window_bounds (n p m start end_ : Z) :
  0 <= p < n -> 0 <= m -> window n p m = Ok (start, end_) ->
  0 <= start /\ start <= p /\ p < end_ /\ end_ <= n /\ end_ - start <= m + 1.
Proof.
  intros Hp Hm. unfold window. rewrite !floordiv_2. cbn [bind].
  pose proof (Z.div_mod m 2 ltac:(lia)) as Hdm.
  pose proof (Z.mod_pos_bound m 2 ltac:(lia)) as Hmm.
  destruct (Z.ltb_spec 0
    (m - (Z.min p (m / 2) + Z.min (n - p - 1) (m / 2) + 1))) as [Hr|Hr];
    rewrite ?floordiv_2; cbn [bind]; intros [= <- <-].
  - set (r := m - (Z.min p (m / 2) + Z.min (n - p - 1) (m / 2) + 1)) in *.
    pose proof (Z.div_mod r 2 ltac:(lia)).
    pose proof (Z.mod_pos_bound r 2 ltac:(lia)).
    lia.
  - lia.
Qed.

(** With an odd budget the window has at most [max_words] words. *)
Lemma window_bounds_odd (n p m start end_ : Z) :
  0 <= p < n -> 0 <= m -> m mod 2 = 1 -> window n p m = Ok (start, end_) ->
  end_ - start <= m.
Proof.
  intros Hp Hm Hodd. unfold window. rewrite !floordiv_2. cbn [bind].
  pose proof (Z.div_mod m 2 ltac:(lia)) as Hdm.
  destruct (Z.ltb_spec 0
    (m - (Z.min p (m / 2) + Z.min (n - p - 1) (m / 2) + 1))) as [Hr|Hr];
    rewrite ?floordiv_2; cbn [bind]; intros [= <- <-].
  - set (r := m - (Z.min p (m / 2) + Z.min (n - p - 1) (m / 2) + 1)) in *.
    pose proof (Z.div_mod r 2 ltac:(lia)).
    pose proof (Z.mod_pos_bound r 2 ltac:(lia)).
    lia.
  - lia.
Qed.

(** ** The trimmer *)

Example trim_ex :
  trim_sentence_with_occurrence "a b c d e f g" "d" 3 = Ok "c d e"%string.
Proof. reflexivity. Qed.

Example trim_unmatched_ex :
  trim_sentence_with_occurrence "a b c d e f g" "zzzz" 3 = Ok "a b c"%string.
Proof. reflexivity. Qed.

(** The three ways the function returns. *)
Lemma trim_cases (sentence occurrence_word : string) (max_words : Z) :
  let words := split sentence in
  let p := find_occurrence 0 words (clean occurrence_word) in
  (Z.of_nat (length words) <= max_words /\
   trim_sentence_with_occurrence sentence occurrence_word max_words
     = Ok sentence)
  \/ (max_words < Z.of_nat (length words) /\ p = -1 /\
      trim_sentence_with_occurrence sentence occurrence_word max_words
        = Ok (join " " (slice words 0 max_words)))
  \/ (max_words < Z.of_nat (length words) /\ p <> -1 /\
      exists start end_,
        window (Z.of_nat (length words)) p max_words = Ok (start, end_) /\
        trim_sentence_with_occurrence sentence occurrence_word max_words
          = Ok (join " " (slice words start end_))).
Proof.
  intros words p. unfold trim_sentence_with_occurrence.
  fold words. fold p.
  destruct (Z.leb_spec (Z.of_nat (length words)) max_words); [by left | right].
  destruct (Z.eqb_spec p (-1)); [by left | right].
  destruct (window_total (Z.of_nat (length words)) p max_words)
    as [[start end_] Hw].
  rewrite Hw. cbn [bind]. eauto 10.
Qed.

Lemma trim_total (sentence occurrence_word : string) (max_words : Z) :
  exists out,
    trim_sentence_with_occurrence sentence occurrence_word max_words = Ok out.
Proof.
  destruct (trim_cases sentence occurrence_word max_words)
    as [[_ Heq] | [(_ & _ & Heq) | (_ & _ & start & end_ & _ & Heq)]];
    eauto.
Qed.

(** X1.  Past the identity case the result has at most [max_words + 1]
    words, and at most [max_words] when [max_words] is odd. *)
Lemma trim_word_count_bound (sentence occurrence_word out : string)
    (max_words : Z) :
  0 <= max_words -> max_words < word_count sentence ->
  trim_sentence_with_occurrence sentence occurrence_word max_words = Ok out ->
  word_count out <= max_words + 1
  /\ (max_words mod 2 = 1 -> word_count out <= max_words).
Proof.
  intros Hm Hlong Hout. unfold word_count in *.
  pose proof (split_words sentence) as Hwords.
  destruct (trim_cases sentence occurrence_word max_words)
    as [[Hle _] | [(_ & Hp & Heq) | (_ & Hp & start & end_ & Hw & Heq)]].
  - lia.
  - rewrite Heq in Hout. injection Hout as <-.
    rewrite split_join by by apply slice_sublist.
    rewrite slice_length by lia. lia.
  - rewrite Heq in Hout. injection Hout as <-.
    rewrite split_join by by apply slice_sublist.
    pose proof (find_occurrence_range _ _ _ eq_refl Hp) as Hrange.
    pose proof (window_bounds _ _ _ _ _ Hrange Hm Hw) as (? & ? & ? & ? & ?).
    rewrite slice_length by lia. split; [lia|]. intros Hodd.
    pose proof (window_bounds_odd _ _ _ _ _ Hrange Hm Hodd Hw). lia.
Qed.

(** C1 (the code departs from the claim).  With [max_words = 20], the
    budget every caller passes, a sentence of 21 words whose tenth word
    (counting from 0) is the occurrence has 10 words kept on each side of
    it: the function returns all 21 words, one more than [max_words]. *)
Theorem trim_returns_21_words_for_budget_20 :
  word_count sentence_21 = 21
  /\ find_occurrence 0 (split sentence_21) (clean "Hund") = 10
  /\ window 21 10 20 = Ok (0, 21)
  /\ trim_sentence_with_occurrence sentence_21 "Hund" 20 = Ok sentence_21.
Proof. repeat split; vm_compute; reflexivity. Qed.

(** C2 (the code departs from the claim).  The search is one pass in
    which each word is put to the exact test and then to the fuzzy test:
    the word at index 0 passes the fuzzy test only and is taken, though the
    word at index 25 is an exact match; the excerpt is cut around index 0
    and does not hold the occurrence. *)
Theorem find_occurrence_takes_earlier_fuzzy_match :
  let words := split sentence_fuzzy_first in
  let occurrence_clean := clean "Hundes" in
  list_find (fun w => exact_match (clean w) occurrence_clean = true) words
    = Some (25%nat, "Hundes"%string)
  /\ exact_match (clean "Hund") occurrence_clean = false
  /\ fuzzy_match (clean "Hund") occurrence_clean = true
  /\ find_occurrence 0 words occurrence_clean = 0
  /\ trim_sentence_with_occurrence sentence_fuzzy_first "Hundes" 20
     = Ok "Hund x x x x x x x x x x x x x x x x x x x"%string.
Proof. repeat split; vm_compute; reflexivity. Qed.

(** C3.  A sentence of at most [max_words] words is returned as it is. *)
Theorem trim_identity (sentence occurrence_word : string) (max_words : Z) :
  word_count sentence <= max_words ->
  trim_sentence_with_occurrence sentence occurrence_word max_words
    = Ok sentence.
Proof.
  intros Hshort. unfold trim_sentence_with_occurrence.
  unfold word_count in Hshort.
  by destruct (Z.leb_spec (Z.of_nat (length (split sentence))) max_words);
    [|lia].
Qed.

Lemma trim_identity_witness :
  word_count "  Der Hund   bellt. " <= 20
  /\ trim_sentence_with_occurrence "  Der Hund   bellt. " "Hund" 20
     = Ok "  Der Hund   bellt. "%string.
Proof.
  split; [vm_compute; discriminate|].
  apply (trim_identity "  Der Hund   bellt. " "Hund" 20).
  vm_compute; discriminate.
Defined.

(** C4.  When the sentence has more than [max_words] words and the search
    stops at position [p], the result is the words [start..end-1] of the
    sentence joined by single spaces, with [start <= p < end]; so the word
    at position [p] is word [p - start] of the result. *)
Theorem trim_window_contains_match
    (sentence occurrence_word : string) (max_words p : Z) :
  0 <= max_words ->
  max_words < word_count sentence ->
  find_occurrence 0 (split sentence) (clean occurrence_word) = p ->
  p <> -1 ->
  exists start end_ out,
    trim_sentence_with_occurrence sentence occurrence_word max_words = Ok out
    /\ out = join " " (slice (split sentence) start end_)
    /\ 0 <= start /\ start <= p /\ p < end_ /\ end_ <= word_count sentence
    /\ split out = slice (split sentence) start end_
    /\ is_Some (split sentence !! Z.to_nat p)
    /\ split out !! Z.to_nat (p - start) = split sentence !! Z.to_nat p.
Proof.
  intros Hm Hlong Hfind Hp. unfold word_count in *.
  destruct (trim_cases sentence occurrence_word max_words)
    as [[Hle _] | [(_ & Hp' & _) | (_ & _ & start & end_ & Hw & Heq)]].
  - lia.
  - congruence.
  - rewrite Hfind in Hw.
    pose proof (find_occurrence_range _ _ _ Hfind Hp) as Hrange.
    pose proof (window_bounds _ _ _ _ _ Hrange Hm Hw) as (? & ? & ? & ? & ?).
    exists start, end_, (join " " (slice (split sentence) start end_)).
    rewrite split_join by (apply slice_sublist, split_words).
    repeat split; try done.
    + apply lookup_lt_is_Some. lia.
    + by apply slice_lookup.
Qed.

Lemma trim_window_contains_match_witness :
  exists start end_ out,
    trim_sentence_with_occurrence "a b c d e f g" "(D)" 3 = Ok out
    /\ out = join " " (slice (split "a b c d e f g") start end_)
    /\ 0 <= start /\ start <= 3 /\ 3 < end_
    /\ end_ <= word_count "a b c d e f g"
    /\ split out = slice (split "a b c d e f g") start end_
    /\ is_Some (split "a b c d e f g" !! Z.to_nat 3)
    /\ split out !! Z.to_nat (3 - start)
       = split "a b c d e f g" !! Z.to_nat 3.
Proof.
  apply (trim_window_contains_match "a b c d e f g" "(D)" 3 3).
  - lia.
  - vm_compute; reflexivity.
  - vm_compute; reflexivity.
  - discriminate.
Defined.

(** C5.  The function returns a value for every sentence, occurrence word
    and [max_words], none of its operations raises: the sentence itself
    when it is short enough, the first [max_words] words when the search
    finds nothing, and the words of the window otherwise. *)
Theorem trim_never_raises (sentence occurrence_word : string) (max_words : Z) :
  exists out,
    trim_sentence_with_occurrence sentence occurrence_word max_words = Ok out
    /\ if word_count sentence <=? max_words then out = sentence
       else if find_occurrence 0 (split sentence) (clean occurrence_word)
               =? -1
       then out = join " " (slice (split sentence) 0 max_words)
       else exists start end_,
              window (word_count sentence)
                (find_occurrence 0 (split sentence) (clean occurrence_word))
                max_words = Ok (start, end_)
              /\ out = join " " (slice (split sentence) start end_).
Proof.
  unfold word_count.
  destruct (trim_cases sentence occurrence_word max_words)
    as [[Hle Heq] | [(Hlt & Hp & Heq) | (Hlt & Hp & start & end_ & Hw & Heq)]];
    eexists; (split; [exact Heq|]).
  - by destruct (Z.leb_spec (Z.of_nat (length (split sentence))) max_words);
      [|lia].
  - destruct (Z.leb_spec (Z.of_nat (length (split sentence))) max_words);
      [lia|].
    by rewrite Hp.
  - destruct (Z.leb_spec (Z.of_nat (length (split sentence))) max_words);
      [lia|].
    destruct (Z.eqb_spec
      (find_occurrence 0 (split sentence) (clean occurrence_word)) (-1));
      [done | eauto].
Qed.

(** ** The extractor: what the loop has seen *)

Lemma first_seen_snoc (seen : list string) (ms : list (string * string))
    (s w : string) :
  first_seen seen (ms ++ [(s, w)]) =
    first_seen seen ms
    ++ (if decide (s ∈ seen ++ ms.*1) then [] else [(s, w)]).
Proof.
  revert seen. induction ms as [|[s' w'] ms IH]; intros seen; cbn.
  - rewrite app_nil_r. by destruct (decide (s ∈ seen)).
  - destruct (decide (s' ∈ seen)) as [Hs'|Hs'].
    + rewrite IH. f_equal. apply decide_ext. set_solver.
    + rewrite IH. cbn. do 2 f_equal. apply decide_ext. set_solver.
Qed.

Lemma first_seen_sentences (seen : list string) (ms : list (string * string)) :
  NoDup (first_seen seen ms).*1
  /\ forall s, s ∈ (first_seen seen ms).*1 <-> s ∈ ms.*1 /\ s ∉ seen.
Proof.
  revert seen. induction ms as [|[s' w'] ms IH]; intros seen; cbn.
  - split; [constructor | set_solver].
  - destruct (IH seen) as [Hnd Hin]. destruct (IH (s' :: seen)) as [Hnd' Hin'].
    destruct (decide (s' ∈ seen)) as [Hs'|Hs']; cbn.
    + split; [done|]. intros s. rewrite Hin. set_solver.
    + split.
      * constructor; [|done]. rewrite Hin'. set_solver.
      * intros s. rewrite elem_of_cons, Hin'.
        destruct (decide (s = s')); set_solver.
Qed.

Lemma first_seen_sublist (seen : list string) (ms : list (string * string)) :
  first_seen seen ms `sublist_of` ms.
Proof.
  revert seen. induction ms as [|[s' w'] ms IH]; intros seen; cbn; [done|].
  destruct (decide (s' ∈ seen)).
  - by apply sublist_cons.
  - by apply sublist_skip.
Qed.

Lemma first_seen_nonempty (ms : list (string * string)) :
  ms <> [] -> first_seen [] ms <> [].
Proof.
  destruct ms as [|[s w] ms]; [done|]. intros _. cbn.
  rewrite decide_False by set_solver. done.
Qed.

Lemma of_lemma_snoc (L L' s w : string) (evs : list (string * string * string)) :
  of_lemma L' (evs ++ [(L, s, w)]) =
    of_lemma L' evs ++ (if decide (L = L') then [(s, w)] else []).
Proof.
  unfold of_lemma. rewrite omap_app. cbn. by destruct (decide (L = L')).
Qed.

Lemma bucket_inv_empty : bucket_inv empty_bucket [].
Proof. split; intros L; cbn; by rewrite ?lookup_empty. Qed.

Lemma add_occurrence_inv (L s w : string) (b : Bucket)
    (evs : list (string * string * string)) :
  bucket_inv b evs ->
  exists b', add_occurrence L s w b = Ok b'
             /\ bucket_inv b' (evs ++ [(L, s, w)]).
Proof.
  intros [Hlem Horig Hocc]. unfold add_occurrence.
  destruct (trim_total s w 20) as [ph Hph].
  pose proof (Horig L) as HorigL. pose proof (Hocc L) as HoccL.
  destruct (original_sentences b !! L) as [seen|] eqn:Hseen.
  - (* the lemma was met before *)
    destruct (of_lemma L evs) as [|m ms] eqn:Hms; [done|].
    injection HorigL as ->.
    destruct (occurrences b !! L) as [phrases|] eqn:Hphrases; [|done].
    destruct HoccL as [_ HoccL].
    unfold getitem at 1. rewrite Hseen. cbn [bind].
    destruct (decide (s ∈ _)) as [Hin|Hin].
    + eexists. split; [reflexivity|]. split; cbn; intros L'.
      * rewrite of_lemma_snoc, elem_of_union, elem_of_singleton, Hlem.
        destruct (decide (L = L')) as [<-|]; [|rewrite app_nil_r; naive_solver].
        rewrite Hms. split; [by destruct ms | by left].
      * rewrite of_lemma_snoc. destruct (decide (L = L')) as [<-|].
        -- rewrite Hseen, Hms. cbn. f_equal. apply set_eq. intros x.
           rewrite fmap_app. cbn. set_solver.
        -- by rewrite app_nil_r.
      * rewrite of_lemma_snoc. destruct (decide (L = L')) as [<-|].
        -- rewrite Hphrases, Hms. split; [done|].
           rewrite first_seen_snoc. rewrite decide_True; [|set_solver].
           by rewrite app_nil_r.
        -- rewrite app_nil_r. apply Hocc.
    + rewrite Hph. cbn [bind]. unfold getitem. rewrite Hphrases. cbn [bind].
      eexists. split; [reflexivity|]. split; cbn; intros L'.
      * rewrite of_lemma_snoc, elem_of_union, elem_of_singleton, Hlem.
        destruct (decide (L = L')) as [<-|]; [|rewrite app_nil_r; naive_solver].
        rewrite Hms. split; [by destruct ms | by left].
      * rewrite of_lemma_snoc. destruct (decide (L = L')) as [<-|].
        -- rewrite lookup_insert_eq, Hms. cbn. f_equal. apply set_eq. intros x.
           rewrite fmap_app. cbn. set_solver.
        -- rewrite lookup_insert_ne by done. by rewrite app_nil_r.
      * rewrite of_lemma_snoc. destruct (decide (L = L')) as [<-|].
        -- rewrite lookup_insert_eq, Hms. split; [done|].
           rewrite first_seen_snoc. rewrite decide_False; [|set_solver].
           apply Forall2_app; [done|]. by repeat constructor.
        -- rewrite lookup_insert_ne by done. rewrite app_nil_r. apply Hocc.
  - (* first time for the lemma *)
    destruct (of_lemma L evs) as [|m ms] eqn:Hms; [|done].
    unfold getitem. rewrite !lookup_insert_eq. cbn [bind].
    rewrite decide_False by set_solver. rewrite Hph. cbn [bind].
    eexists. split; [reflexivity|]. split; cbn; intros L'.
    + rewrite of_lemma_snoc, elem_of_union, elem_of_singleton, Hlem.
      destruct (decide (L = L')) as [<-|]; [|rewrite app_nil_r; naive_solver].
      rewrite Hms. split; [done | by right].
    + rewrite of_lemma_snoc. destruct (decide (L = L')) as [<-|].
      * rewrite lookup_insert_eq, Hms. cbn. f_equal; try (apply set_eq; set_solver).
      * rewrite !lookup_insert_ne by done. by rewrite app_nil_r.
    + rewrite of_lemma_snoc. destruct (decide (L = L')) as [<-|].
      * rewrite lookup_insert_eq, Hms. split; [done|]. cbn.
        rewrite decide_False by set_solver. by repeat constructor.
      * rewrite !lookup_insert_ne by done. rewrite app_nil_r. apply Hocc.
Qed.

Lemma state_inv_initial (doc : Doc) : state_inv doc initial_state [].
Proof. repeat split; apply bucket_inv_empty. Qed.

Lemma mentions_snoc (doc : Doc) (pos : string) (toks : list Token) (t : Token) :
  mentions doc pos (toks ++ [t]) =
    mentions doc pos toks
    ++ match mention_of doc t with
       | Some (p, m) => if decide (p = pos) then [m] else []
       | None => []
       end.
Proof.
  unfold mentions. rewrite omap_app. f_equal. cbn.
  destruct (mention_of doc t) as [[p m]|]; [|done].
  by destruct (decide (p = pos)).
Qed.

(** The loop body in terms of [mention_of]. *)
Lemma process_token_mention (doc : Doc) (t : Token) (st : State) :
  process_token doc t st =
    match mention_of doc t with
    | None => Ok st
    | Some (p, (L, s, w)) =>
        if decide (p = "NOUN"%string) then
          let* b := add_occurrence L s w (noun st) in
          Ok {| noun := b; verb := verb st; adjective := adjective st |}
        else if decide (p = "VERB"%string) then
          let* b := add_occurrence L s w (verb st) in
          Ok {| noun := noun st; verb := b; adjective := adjective st |}
        else if decide (p = "ADJ"%string) then
          let* b := add_occurrence L s w (adjective st) in
          Ok {| noun := noun st; verb := verb st; adjective := b |}
        else Ok st
    end.
Proof.
  unfold process_token, mention_of.
  destruct (tok_is_punct t || tok_is_space t); [done|].
  destruct (String.eqb_spec (strip (lower (tok_lemma_ t))) "");
    [by rewrite decide_True | rewrite decide_False by done].
  destruct (find_containing_sentence (doc_sents doc) t) as [s|]; [|done].
  destruct (String.eqb_spec s "");
    [by rewrite decide_True | rewrite decide_False by done].
  destruct (String.eqb_spec (tok_pos_ t) "NOUN");
    [by rewrite decide_True | rewrite decide_False by done].
  destruct (String.eqb_spec (tok_pos_ t) "VERB");
    [by rewrite decide_True | rewrite decide_False by done].
  destruct (String.eqb_spec (tok_pos_ t) "ADJ");
    [by rewrite decide_True | by rewrite decide_False].
Qed.

Lemma process_token_inv (doc : Doc) (t : Token) (st : State)
    (toks : list Token) :
  state_inv doc st toks ->
  exists st', process_token doc t st = Ok st'
              /\ state_inv doc st' (toks ++ [t]).
Proof.
  intros (Hn & Hv & Ha). unfold state_inv.
  rewrite process_token_mention, !mentions_snoc.
  destruct (mention_of doc t) as [[p [[L s] w]]|];
    [|rewrite !app_nil_r; eauto].
  destruct (decide (p = "NOUN"%string)) as [->|Hnn].
  { destruct (add_occurrence_inv L s w _ _ Hn) as (b & -> & Hb).
    rewrite !decide_False by done. rewrite !app_nil_r.
    eexists; split; [reflexivity|]. cbn. auto. }
  destruct (decide (p = "VERB"%string)) as [->|Hnv].
  { destruct (add_occurrence_inv L s w _ _ Hv) as (b & -> & Hb).
    rewrite !decide_False by done. rewrite !app_nil_r.
    eexists; split; [reflexivity|]. cbn. auto. }
  destruct (decide (p = "ADJ"%string)) as [->|Hna].
  { destruct (add_occurrence_inv L s w _ _ Ha) as (b & -> & Hb).
    rewrite !app_nil_r.
    eexists; split; [reflexivity|]. cbn. auto. }
  rewrite !app_nil_r. eauto.
Qed.

Lemma process_tokens_inv (doc : Doc) (tokens : list Token) :
  forall (st : State) (toks : list Token),
    state_inv doc st toks ->
    exists st', process_tokens doc tokens st = Ok st'
                /\ state_inv doc st' (toks ++ tokens).
Proof.
  induction tokens as [|t tokens IH]; intros st toks Hinv; cbn.
  - rewrite app_nil_r. eauto.
  - destruct (process_token_inv doc t st toks Hinv) as (st1 & -> & Hinv1).
    cbn [bind]. destruct (IH st1 (toks ++ [t]) Hinv1) as (st' & Hst' & Hinv').
    rewrite <- app_assoc in Hinv'. eauto.
Qed.

(** The loop never raises, and leaves every category in the state
    described by the tokens of the document. *)
Lemma process_doc (doc : Doc) :
  exists st, process_tokens doc (doc_tokens doc) initial_state = Ok st
             /\ state_inv doc st (doc_tokens doc).
Proof. apply (process_tokens_inv doc _ _ [] (state_inv_initial doc)). Qed.

(** ** The result *)

Lemma sorted_perm (l : list string) : sorted l ≡ₚ l.
Proof. apply merge_sort_Permutation. Qed.

Lemma sorted_StronglySorted (l : list string) :
  StronglySorted String.le (sorted l).
Proof. apply StronglySorted_merge_sort; apply _. Qed.

Lemma sorted_elements_NoDup (X : gset string) : NoDup (sorted (elements X)).
Proof. rewrite sorted_perm. apply NoDup_elements. Qed.

Lemma elem_of_sorted_elements (X : gset string) (x : string) :
  x ∈ sorted (elements X) <-> x ∈ X.
Proof. rewrite sorted_perm. apply elem_of_elements. Qed.

Lemma occurrences_list_keys (key_name : string)
    (occ : gmap string (list string)) (ks : list string) :
  Forall (fun k => k ∈ dom occ) ks ->
  foldr
    (fun k rest =>
       let* phrases := getitem occ k in
       let* tail := rest in
       Ok (map (fun phrase =>
                  {| occ_key_name := key_name; occ_lemma := k;
                     occ_phrase := phrase |}) phrases ++ tail))
    (Ok []) ks
  = Ok (entries key_name occ ks).
Proof.
  induction 1 as [|k ks Hk _ IH]; [reflexivity|]. cbn [foldr].
  apply elem_of_dom in Hk as [phrases Hk].
  rewrite IH. unfold getitem, entries. rewrite Hk. cbn. by rewrite Hk.
Qed.

(** Building an occurrence list never raises. *)
Lemma occurrences_list_ok (key_name : string)
    (occ : gmap string (list string)) :
  occurrences_list key_name occ
  = Ok (entries key_name occ (sorted (elements (dom occ)))).
Proof.
  apply occurrences_list_keys, Forall_forall. intros k.
  by rewrite elem_of_sorted_elements.
Qed.

Lemma build_result_ok (st : State) :
  build_result st = Ok
    {| nouns := sorted (elements (lemmas (noun st)));
       verbs := sorted (elements (lemmas (verb st)));
       adjectives := sorted (elements (lemmas (adjective st)));
       verb_occurrences :=
         entries "infinitive" (occurrences (verb st))
           (sorted (elements (dom (occurrences (verb st)))));
       noun_occurrences :=
         entries "noun" (occurrences (noun st))
           (sorted (elements (dom (occurrences (noun st)))));
       adjective_occurrences :=
         entries "adjective" (occurrences (adjective st))
           (sorted (elements (dom (occurrences (adjective st))))) |}.
Proof. unfold build_result. by rewrite !occurrences_list_ok. Qed.

Lemma elem_of_entries (key_name : string) (occ : gmap string (list string))
    (ks : list string) (o : Occurrence) :
  o ∈ entries key_name occ ks <->
  exists k phrases phrase,
    k ∈ ks /\ occ !! k = Some phrases /\ phrase ∈ phrases
    /\ o = entry key_name k phrase.
Proof.
  unfold entries. rewrite list_elem_of_In, in_flat_map. split.
  - intros (k & Hk & Ho). apply list_elem_of_In in Hk.
    apply list_elem_of_In, list_elem_of_fmap in Ho as (phrase & -> & Hph).
    destruct (occ !! k) as [phrases|] eqn:Hocc; cbn in Hph.
    + eauto 10.
    + by apply elem_of_nil in Hph.
  - intros (k & phrases & phrase & Hk & Hocc & Hph & ->).
    exists k. split; [by apply list_elem_of_In|].
    apply list_elem_of_In, list_elem_of_fmap. exists phrase.
    by rewrite Hocc.
Qed.

Lemma entries_lemmas_sorted (key_name : string)
    (occ : gmap string (list string)) (ks : list string) :
  StronglySorted String.le ks ->
  StronglySorted String.le (occ_lemma <$> entries key_name occ ks).
Proof.
  induction 1 as [|k ks Hks IH Hall]; [constructor|].
  unfold entries. cbn [flat_map]. rewrite fmap_app.
  apply StronglySorted_app_2; [| |apply IH].
  - intros x y Hx Hy.
    apply list_elem_of_fmap in Hx as (o & -> & Ho).
    apply list_elem_of_fmap in Ho as (ph' & -> & _). cbn.
    apply list_elem_of_fmap in Hy as (o & -> & Ho).
    apply elem_of_entries in Ho as (k' & ? & ? & Hk' & _ & _ & ->). cbn.
    by eapply Forall_forall in Hall.
  - generalize (default [] (occ !! k)). intros phrases.
    induction phrases as [|ph phrases IHp]; [constructor|].
    cbn. constructor; [done|].
    apply Forall_forall. intros x Hx.
    apply list_elem_of_fmap in Hx as (o & -> & Ho).
    apply list_elem_of_fmap in Ho as (ph' & -> & _). reflexivity.
Qed.

Lemma entries_key_name (key_name : string) (occ : gmap string (list string))
    (ks : list string) :
  Forall (fun o => occ_key_name o = key_name) (entries key_name occ ks).
Proof.
  apply Forall_forall. intros o Ho.
  by apply elem_of_entries in Ho as (? & ? & ? & _ & _ & _ & ->).
Qed.

Lemma phrases_of_entry_same (key_name L : string) (phrases : list string) :
  phrases_of L (map (entry key_name L) phrases) = phrases.
Proof.
  unfold phrases_of. induction phrases as [|ph phrases IH]; [done|].
  cbn [map]. rewrite filter_cons_True by done. cbn [fmap list_fmap]. cbn.
  by f_equal.
Qed.

Lemma phrases_of_entry_other (key_name L k : string) (phrases : list string) :
  k <> L -> phrases_of L (map (entry key_name k) phrases) = [].
Proof.
  intros Hne. unfold phrases_of.
  induction phrases as [|ph phrases IH]; [done|].
  cbn [map]. by rewrite filter_cons_False by done.
Qed.

Lemma phrases_of_app (L : string) (l1 l2 : list Occurrence) :
  phrases_of L (l1 ++ l2) = phrases_of L l1 ++ phrases_of L l2.
Proof. unfold phrases_of. by rewrite filter_app, fmap_app. Qed.

(** The phrases listed under a lemma are those the map holds for it. *)
Lemma phrases_of_entries (key_name L : string)
    (occ : gmap string (list string)) (ks : list string) :
  NoDup ks ->
  phrases_of L (entries key_name occ ks) =
    if decide (L ∈ ks) then default [] (occ !! L) else [].
Proof.
  induction 1 as [|k ks Hk Hnd IH]; [done|].
  unfold entries. cbn [flat_map]. rewrite phrases_of_app.
  fold (entries key_name occ ks). rewrite IH.
  destruct (decide (k = L)) as [->|Hne].
  - rewrite phrases_of_entry_same, decide_False by done.
    rewrite decide_True by set_solver. by rewrite app_nil_r.
  - rewrite phrases_of_entry_other by done. cbn.
    apply decide_ext. set_solver.
Qed.

(** ** Blank text *)

Lemma strip_all_space (s : string) : all_space s = true -> strip s = EmptyString.
Proof.
  unfold strip, strip_by. induction s as [|c s IH]; [done|]. cbn.
  intros [-> Hs]%andb_true_iff. auto.
Qed.

(** ** A fabricated document *)

Example extract_hund :
  extract_pos_tags nlp_hund "Der Hund sieht den Hund. Der Hund bellt." = Ok
    {| nouns := ["hund"%string];
       verbs := ["bellen"; "sehen"]%string;
       adjectives := [];
       verb_occurrences :=
         [ entry "infinitive" "bellen" "Der Hund bellt.";
           entry "infinitive" "sehen" "Der Hund sieht den Hund." ];
       noun_occurrences :=
         [ entry "noun" "hund" "Der Hund sieht den Hund.";
           entry "noun" "hund" "Der Hund bellt." ];
       adjective_occurrences := [] |}.
Proof. vm_compute. reflexivity. Qed.

(** ** The extractor *)

(** The two ways [extract_pos_tags] returns. *)
Lemma extract_cases (nlp : string -> Doc) (text : string) :
  (strip text = EmptyString /\ extract_pos_tags nlp text = Ok empty_result)
  \/ (strip text <> EmptyString /\
      exists st,
        process_tokens (nlp text) (doc_tokens (nlp text)) initial_state = Ok st
        /\ state_inv (nlp text) st (doc_tokens (nlp text))
        /\ extract_pos_tags nlp text = build_result st).
Proof.
  unfold extract_pos_tags.
  destruct (String.eqb_spec text "") as [->|Hne]; [by left|].
  destruct (String.eqb_spec (strip text) "") as [Hs|Hs]; [by left | right].
  split; [done|]. cbn [orb].
  destruct (process_doc (nlp text)) as (st & Hst & Hinv).
  exists st. by rewrite Hst.
Qed.

(** C7.  For a text that is empty or holds whitespace only the result has
    six empty fields, and nothing is raised. *)
Theorem extract_blank_text (nlp : string -> Doc) (text : string) :
  all_space text = true ->
  extract_pos_tags nlp text = Ok
    {| nouns := []; verbs := []; adjectives := [];
       verb_occurrences := []; noun_occurrences := [];
       adjective_occurrences := [] |}.
Proof.
  intros Hblank. unfold extract_pos_tags.
  rewrite (strip_all_space _ Hblank). cbn. by rewrite orb_true_r.
Qed.

Lemma extract_blank_witness :
  all_space "   " = true
  /\ extract_pos_tags nlp_hund "   " = Ok empty_result.
Proof.
  split; [reflexivity|]. apply (extract_blank_text nlp_hund "   ").
  reflexivity.
Defined.

(** A token that the loop body works on lies in a sentence of the
    document, and the body works with the stripped text of the first such
    sentence, the token's own text and its lower-cased, stripped lemma. *)
Lemma mention_of_token (doc : Doc) (t : Token) (p L s w : string) :
  mention_of doc t = Some (p, (L, s, w)) ->
  p = tok_pos_ t /\ L = strip (lower (tok_lemma_ t)) /\ w = tok_text t
  /\ L <> EmptyString /\ s <> EmptyString
  /\ exists sent, sent ∈ doc_sents doc /\ token_in t sent = true
                  /\ s = strip (sent_text sent).
Proof.
  unfold mention_of. destruct (_ || _); [done|].
  destruct (decide (_ = _)) as [|HL]; [done|].
  destruct (find_containing_sentence _ _) as [s'|] eqn:Hs; [|done].
  destruct (decide (s' = _)) as [|Hs']; [done|].
  intros [= <- <- <- <-]. repeat split; try done.
  induction (doc_sents doc) as [|sent sents IH]; [done|]. cbn in Hs.
  destruct (token_in t sent) eqn:Hin.
  - injection Hs as <-. exists sent. split; [by left | done].
  - destruct (IH Hs) as (sent' & ? & ? & ?). exists sent'.
    split; [by right | done].
Qed.

(** Every pair of [of_lemma L (mentions doc pos tokens)] comes from a
    token of the list with that POS tag and that lemma. *)
Lemma of_lemma_mentions_token (doc : Doc) (pos L : string)
    (tokens : list Token) (sw : string * string) :
  sw ∈ of_lemma L (mentions doc pos tokens) ->
  exists t sent,
    t ∈ tokens /\ sent ∈ doc_sents doc /\ token_in t sent = true
    /\ tok_pos_ t = pos /\ strip (lower (tok_lemma_ t)) = L
    /\ sw = (strip (sent_text sent), tok_text t).
Proof.
  unfold of_lemma, mentions. intros Hsw.
  apply list_elem_of_omap in Hsw as ([[L' s] w] & Hm & Hsw).
  destruct (decide (L' = L)) as [->|]; [|done]. injection Hsw as <-.
  apply list_elem_of_omap in Hm as (t & Ht & Hm).
  destruct (mention_of doc t) as [[p m]|] eqn:Hmt; [|done].
  destruct (decide (p = pos)) as [->|]; [|done]. injection Hm as ->.
  apply mention_of_token in Hmt
    as (-> & -> & -> & _ & _ & sent & Hsent & Hin & ->).
  by exists t, sent.
Qed.

Lemma bucket_phrases (key_name L : string) (b : Bucket)
    (evs : list (string * string * string)) :
  bucket_inv b evs ->
  Forall2 phrase_for
    (phrases_of L (entries key_name (occurrences b)
                     (sorted (elements (dom (occurrences b))))))
    (first_seen [] (of_lemma L evs)).
Proof.
  intros [_ _ Hocc]. rewrite phrases_of_entries by apply sorted_elements_NoDup.
  specialize (Hocc L).
  destruct (decide (L ∈ _)) as [Hin|Hin];
    rewrite elem_of_sorted_elements, elem_of_dom in Hin.
  - destruct Hin as [phrases Hin]. rewrite Hin in *. cbn. apply Hocc.
  - destruct (occurrences b !! L); [by destruct Hin|].
    rewrite Hocc. constructor.
Qed.

Lemma bucket_listed (key_name L : string) (b : Bucket)
    (evs : list (string * string * string)) :
  bucket_inv b evs ->
  L ∈ sorted (elements (lemmas b)) <->
  exists o,
    o ∈ entries key_name (occurrences b)
          (sorted (elements (dom (occurrences b))))
    /\ occ_lemma o = L.
Proof.
  intros [Hlem _ Hocc]. rewrite elem_of_sorted_elements, Hlem. split.
  - intros Hne. specialize (Hocc L).
    destruct (occurrences b !! L) as [phrases|] eqn:HL; [|done].
    destruct Hocc as [_ Hall]. apply first_seen_nonempty in Hne.
    destruct Hall as [|phrase sw phrases kept _ _]; [done|].
    exists (entry key_name L phrase). split; [|done].
    apply elem_of_entries. exists L, (phrase :: phrases), phrase.
    rewrite elem_of_sorted_elements, elem_of_dom, HL.
    repeat split; [by eexists | by left].
  - intros (o & Ho & <-).
    apply elem_of_entries in Ho as (k & phrases & phrase & _ & Hk & _ & ->).
    specialize (Hocc k). rewrite Hk in Hocc. cbn. apply Hocc.
Qed.

(** C8.  For a lemma [L] and each category, the phrases listed under [L]
    are, in order, what the trimmer returns for the first token of [L]
    in every distinct containing sentence, sentences taken in document
    order: one phrase for each sentence text, none twice.  The sentence
    text is the one the code compares, [sent.text.strip()]. *)
Theorem occurrences_one_per_sentence (nlp : string -> Doc)
    (text L : string) :
  strip text <> EmptyString ->
  exists r,
    extract_pos_tags nlp text = Ok r
    /\ let doc := nlp text in
       let seen pos := of_lemma L (mentions doc pos (doc_tokens doc)) in
       let kept pos := first_seen [] (seen pos) in
       Forall2 phrase_for (phrases_of L (noun_occurrences r)) (kept "NOUN")
       /\ Forall2 phrase_for (phrases_of L (verb_occurrences r)) (kept "VERB")
       /\ Forall2 phrase_for (phrases_of L (adjective_occurrences r))
            (kept "ADJ")
       /\ forall pos : string,
            NoDup (kept pos).*1
            /\ kept pos `sublist_of` seen pos
            /\ (forall s, s ∈ (kept pos).*1 <-> s ∈ (seen pos).*1)
            /\ Forall (fun sw =>
                  exists t sent,
                    t ∈ doc_tokens doc /\ sent ∈ doc_sents doc
                    /\ token_in t sent = true
                    /\ tok_pos_ t = pos
                    /\ strip (lower (tok_lemma_ t)) = L
                    /\ sw = (strip (sent_text sent), tok_text t))
                 (kept pos).
Proof.
  intros Hne.
  destruct (extract_cases nlp text)
    as [[Hblank _] | (_ & st & _ & (Hn & Hv & Ha) & Hr)]; [done|].
  rewrite build_result_ok in Hr. eexists. split; [exact Hr|]. cbn.
  split; [by apply bucket_phrases|].
  split; [by apply bucket_phrases|].
  split; [by apply bucket_phrases|].
  intros pos. split; [apply first_seen_sentences|].
  split; [apply first_seen_sublist|].
  split.
  - intros s. destruct (first_seen_sentences []
      (of_lemma L (mentions (nlp text) pos (doc_tokens (nlp text)))))
      as [_ ->].
    set_solver.
  - apply Forall_forall. intros sw Hsw.
    apply (of_lemma_mentions_token _ pos).
    eapply elem_of_sublist; [exact Hsw | apply first_seen_sublist].
Qed.

Lemma occurrences_one_per_sentence_witness :
  exists r,
    extract_pos_tags nlp_hund "Der Hund sieht den Hund. Der Hund bellt." = Ok r
    /\ Forall2 phrase_for (phrases_of "hund" (noun_occurrences r))
         [ ("Der Hund sieht den Hund.", "Hund");
           ("Der Hund bellt.", "Hund") ]%string.
Proof.
  destruct (occurrences_one_per_sentence nlp_hund
              "Der Hund sieht den Hund. Der Hund bellt." "hund")
    as (r & Hr & Hnoun & _); [vm_compute; discriminate|].
  exists r. split; [exact Hr | exact Hnoun].
Defined.

(** C9.  The three lemma sequences are in ascending order without
    duplicates, and in each occurrence list the lemmas of the entries are
    in ascending order, so the entries of a lemma are contiguous. *)
Theorem result_sorted (nlp : string -> Doc) (text : string) :
  exists r,
    extract_pos_tags nlp text = Ok r
    /\ (StronglySorted String.le (nouns r) /\ NoDup (nouns r))
    /\ (StronglySorted String.le (verbs r) /\ NoDup (verbs r))
    /\ (StronglySorted String.le (adjectives r) /\ NoDup (adjectives r))
    /\ StronglySorted String.le (occ_lemma <$> noun_occurrences r)
    /\ StronglySorted String.le (occ_lemma <$> verb_occurrences r)
    /\ StronglySorted String.le (occ_lemma <$> adjective_occurrences r).
Proof.
  destruct (extract_cases nlp text)
    as [[_ Hr] | (_ & st & _ & _ & Hr)].
  - exists empty_result. split; [done|]. cbn.
    repeat split; constructor.
  - rewrite build_result_ok in Hr. eexists. split; [exact Hr|]. cbn.
    repeat split;
      auto using sorted_StronglySorted, sorted_elements_NoDup,
                 entries_lemmas_sorted.
Qed.

(** C10.  In each category a lemma is in the lemma sequence exactly when
    the occurrence list has an entry for it; the entries carry the key
    names ["noun"], ["infinitive"] and ["adjective"]. *)
Theorem lemmas_match_occurrences (nlp : string -> Doc) (text : string) :
  exists r,
    extract_pos_tags nlp text = Ok r
    /\ (forall L, L ∈ nouns r <->
          exists o, o ∈ noun_occurrences r /\ occ_lemma o = L)
    /\ (forall L, L ∈ verbs r <->
          exists o, o ∈ verb_occurrences r /\ occ_lemma o = L)
    /\ (forall L, L ∈ adjectives r <->
          exists o, o ∈ adjective_occurrences r /\ occ_lemma o = L)
    /\ Forall (fun o => occ_key_name o = "noun"%string) (noun_occurrences r)
    /\ Forall (fun o => occ_key_name o = "infinitive"%string)
         (verb_occurrences r)
    /\ Forall (fun o => occ_key_name o = "adjective"%string)
         (adjective_occurrences r).
Proof.
  destruct (extract_cases nlp text)
    as [[_ Hr] | (_ & st & _ & (Hn & Hv & Ha) & Hr)].
  - exists empty_result. split; [done|]. cbn.
    repeat split; try constructor; set_solver.
  - rewrite build_result_ok in Hr. eexists. split; [exact Hr|]. cbn.
    split; [intros L; by eapply bucket_listed|].
    split; [intros L; by eapply bucket_listed|].
    split; [intros L; by eapply bucket_listed|].
    repeat split; apply entries_key_name.
Qed.

Lemma result_sorted_witness :
  exists r,
    extract_pos_tags nlp_hund "Der Hund sieht den Hund. Der Hund bellt." = Ok r
    /\ StronglySorted String.le (verbs r) /\ NoDup (verbs r)
    /\ StronglySorted String.le (occ_lemma <$> verb_occurrences r).
Proof.
  destruct (result_sorted nlp_hund "Der Hund sieht den Hund. Der Hund bellt.")
    as (r & Hr & _ & [Hs Hnd] & _ & _ & Hocc & _).
  exists r. auto.
Defined.

Lemma lemmas_match_occurrences_witness :
  exists r,
    extract_pos_tags nlp_hund "Der Hund sieht den Hund. Der Hund bellt." = Ok r
    /\ forall L, L ∈ nouns r <->
         exists o, o ∈ noun_occurrences r /\ occ_lemma o = L.
Proof.
  destruct (lemmas_match_occurrences nlp_hund
              "Der Hund sieht den Hund. Der Hund bellt.")
    as (r & Hr & Hn & _).
  exists r. auto.
Defined.

(** ** The entry point *)

(** C6 (as the claim states it, refuted).  The line ["Berlin ist gross."]
    followed by a newline is not JSON; the transcript [main] works with is
    the line without the newline, not the input as it came. *)
Lemma raw_input_is_not_taken_verbatim :
  ~ (forall (json_loads : string -> loads_result) (input_data : string),
       input_data <> EmptyString ->
       json_loads input_data = JSONDecodeError ->
       read_transcript json_loads input_data = Ok (PyStr input_data)).
Proof.
  intros H. specialize (H refusing_decoder berlin_line).
  vm_compute in H. discriminate H; [discriminate | reflexivity].
Qed.

(** C6 (amended).  When the input is not empty and is not JSON, the
    transcript is the input stripped of leading and trailing whitespace;
    when something is left it goes to the extractor and the run ends as
    the extractor does, and when nothing is left the run ends with the
    error ["Transcript is empty"]. *)
Theorem main_raw_text_is_stripped
    (json_loads : string -> loads_result) (nlp : string -> Doc)
    (input_data : string) :
  input_data <> EmptyString ->
  json_loads input_data = JSONDecodeError ->
  read_transcript json_loads input_data = Ok (PyStr (strip input_data))
  /\ main json_loads nlp input_data =
       if String.eqb (strip input_data) ""
       then PrintedError "Transcript is empty"
       else run_extraction nlp (strip input_data).
Proof.
  intros Hne Hjson. unfold main, read_transcript. rewrite Hjson.
  split; [done|].
  destruct (String.eqb_spec input_data ""); [done|]. cbn.
  by destruct (String.eqb (strip input_data) "").
Qed.

Lemma main_raw_text_is_stripped_witness :
  read_transcript refusing_decoder berlin_line
    = Ok (PyStr "Berlin ist gross.")
  /\ main refusing_decoder nlp_hund berlin_line
     = run_extraction nlp_hund "Berlin ist gross.".
Proof.
  destruct (main_raw_text_is_stripped refusing_decoder nlp_hund berlin_line)
    as [Ht Hm]; [vm_compute; discriminate | reflexivity |].
  split; [exact Ht | exact Hm].
Defined.

Example main_blank_input :
  main refusing_decoder nlp_hund "   " = PrintedError "Transcript is empty".
Proof. reflexivity. Qed.

(** * Further properties of the trimmer *)

(** X3.  The search returns the index of the first word that passes the
    exact or the fuzzy test, and [-1] exactly when no word passes
    either. *)
Theorem find_occurrence_first_match (words : list string) (oc : string) :
  let p := find_occurrence 0 words oc in
  (p = -1 /\ Forall (fun w => matches oc w = false) words)
  \/ (0 <= p < Z.of_nat (length words)
      /\ exists w,
           words !! Z.to_nat p = Some w /\ matches oc w = true
           /\ forall (j : nat) (w' : string),
                words !! j = Some w' -> (j < Z.to_nat p)%nat ->
                matches oc w' = false).
Proof.
  intros p. subst p. pose proof (find_occurrence_spec words oc 0) as H.
  destruct (list_find _ words) as [[k w]|] eqn:Hk.
  - right. apply list_find_Some in Hk as (Hk & Hw & Hbefore).
    pose proof (lookup_lt_Some _ _ _ Hk). rewrite H.
    split; [lia|]. exists w. rewrite Z.add_0_l, Nat2Z.id.
    repeat split; [done..|]. intros j w' Hj Hlt.
    apply not_true_is_false. eauto.
  - left. split; [done|]. apply list_find_None in Hk.
    eapply Forall_impl; [exact Hk|]. intros w Hw. by apply not_true_is_false.
Qed.

Lemma find_occurrence_found_before (words : list string) (oc word : string)
    (k : nat) :
  words !! k = Some word -> matches oc word = true ->
  0 <= find_occurrence 0 words oc <= Z.of_nat k.
Proof.
  intros Hk Hword. pose proof (find_occurrence_spec words oc 0) as H.
  destruct (list_find _ words) as [[i w]|] eqn:Hi.
  - apply list_find_Some in Hi as (_ & _ & Hbefore). rewrite H.
    destruct (decide (i <= k)%nat); [lia|].
    exfalso. apply (Hbefore k word); [done | lia | done].
  - apply list_find_None in Hi. eapply Forall_forall in Hi.
    + by destruct Hi.
    + by eapply list_elem_of_lookup_2.
Qed.

(** X4.  When a word of the sentence is the occurrence word up to case and
    surrounding punctuation, the search succeeds, at that word or at an
    earlier one. *)
Theorem occurrence_in_sentence_is_found
    (sentence occurrence_word word : string) (k : nat) :
  split sentence !! k = Some word ->
  clean word = clean occurrence_word ->
  0 <= find_occurrence 0 (split sentence) (clean occurrence_word)
    <= Z.of_nat k.
Proof.
  intros Hk Hclean. apply (find_occurrence_found_before _ _ word); [done|].
  unfold matches, exact_match. rewrite Hclean, String.eqb_refl. done.
Qed.

Lemma occurrence_in_sentence_is_found_witness :
  0 <= find_occurrence 0 (split "Der grosse (HUND), der bellt") (clean "Hund")
    <= Z.of_nat 2.
Proof.
  apply (occurrence_in_sentence_is_found
           "Der grosse (HUND), der bellt" "Hund" "(HUND)," 2);
    reflexivity.
Defined.

Lemma slice_contiguous {A} (l : list A) (lo hi : Z) :
  exists before after, l = before ++ slice l lo hi ++ after.
Proof.
  unfold slice.
  exists (take (Z.to_nat (slice_bound (Z.of_nat (length l)) lo)) l),
    (drop (Z.to_nat (slice_bound (Z.of_nat (length l)) hi
                     - slice_bound (Z.of_nat (length l)) lo))
       (drop (Z.to_nat (slice_bound (Z.of_nat (length l)) lo)) l)).
  by rewrite !take_drop.
Qed.

(** X2.  The words of the result are a contiguous run of the words of the
    sentence, in the same order and unchanged. *)
Theorem trim_words_are_contiguous
    (sentence occurrence_word : string) (max_words : Z) :
  exists out before after,
    trim_sentence_with_occurrence sentence occurrence_word max_words = Ok out
    /\ split sentence = before ++ split out ++ after.
Proof.
  destruct (trim_cases sentence occurrence_word max_words)
    as [[_ Heq] | [(_ & _ & Heq) | (_ & _ & start & end_ & _ & Heq)]].
  - exists sentence, [], []. by rewrite app_nil_r.
  - destruct (slice_contiguous (split sentence) 0 max_words)
      as (before & after & Hsplit).
    eexists _, before, after. split; [exact Heq|].
    by rewrite split_join by (apply slice_sublist, split_words).
  - destruct (slice_contiguous (split sentence) start end_)
      as (before & after & Hsplit).
    eexists _, before, after. split; [exact Heq|].
    by rewrite split_join by (apply slice_sublist, split_words).
Qed.

Lemma window_near_start (n p m : Z) :
  0 <= p -> 2 * p < m -> m < n -> window n p m = Ok (0, m).
Proof.
  intros Hp Hpm Hmn. unfold window. rewrite !floordiv_2. cbn [bind].
  pose proof (Z.div_mod m 2 ltac:(lia)) as Hdm.
  pose proof (Z.mod_pos_bound m 2 ltac:(lia)) as Hmm.
  destruct (Z.ltb_spec 0
    (m - (Z.min p (m / 2) + Z.min (n - p - 1) (m / 2) + 1))) as [Hr|Hr];
    rewrite ?floordiv_2; cbn [bind].
  - set (r := m - (Z.min p (m / 2) + Z.min (n - p - 1) (m / 2) + 1)) in *.
    pose proof (Z.div_mod r 2 ltac:(lia)).
    pose proof (Z.mod_pos_bound r 2 ltac:(lia)).
    do 2 f_equal; lia.
  - do 2 f_equal; lia.
Qed.

Lemma window_centred (n p m : Z) :
  0 <= m -> m / 2 <= p -> m / 2 <= n - p - 1 ->
  window n p m = Ok (p - m / 2, p + m / 2 + 1).
Proof.
  intros Hm Hp Hn. unfold window. rewrite !floordiv_2. cbn [bind].
  pose proof (Z.div_mod m 2 ltac:(lia)) as Hdm.
  pose proof (Z.mod_pos_bound m 2 ltac:(lia)) as Hmm.
  destruct (Z.ltb_spec 0
    (m - (Z.min p (m / 2) + Z.min (n - p - 1) (m / 2) + 1))) as [Hr|Hr];
    rewrite ?floordiv_2; cbn [bind].
  - lia.
  - do 2 f_equal; lia.
Qed.

Lemma trim_matched (sentence occurrence_word : string) (max_words : Z)
    (start end_ : Z) :
  max_words < word_count sentence ->
  find_occurrence 0 (split sentence) (clean occurrence_word) <> -1 ->
  window (word_count sentence)
    (find_occurrence 0 (split sentence) (clean occurrence_word)) max_words
    = Ok (start, end_) ->
  trim_sentence_with_occurrence sentence occurrence_word max_words
    = Ok (join " " (slice (split sentence) start end_)).
Proof.
  unfold word_count. intros Hlong Hp Hw.
  destruct (trim_cases sentence occurrence_word max_words)
    as [[Hle _] | [(_ & Hp' & _) | (_ & _ & start' & end' & Hw' & Heq)]];
    [lia | done |].
  rewrite Hw in Hw'. by injection Hw' as <- <-.
Qed.

(** X5.  When the search stops in the first half of the budget
    ([2 * p < max_words]), the words the left side cannot use go to the
    right: the result is the first [max_words] words of the sentence. *)
Theorem trim_match_near_start
    (sentence occurrence_word : string) (max_words p : Z) :
  max_words < word_count sentence ->
  find_occurrence 0 (split sentence) (clean occurrence_word) = p ->
  0 <= p -> 2 * p < max_words ->
  trim_sentence_with_occurrence sentence occurrence_word max_words
    = Ok (join " " (slice (split sentence) 0 max_words)).
Proof.
  intros Hlong Hfind Hp Hpm. apply trim_matched; [done | lia |].
  rewrite Hfind. by apply window_near_start.
Qed.

Lemma trim_match_near_start_witness :
  trim_sentence_with_occurrence "a b Hund d e f g h" "hund" 6
    = Ok (join " " (slice (split "a b Hund d e f g h") 0 6)).
Proof.
  apply (trim_match_near_start "a b Hund d e f g h" "hund" 6 2);
    [reflexivity | reflexivity | lia | lia].
Defined.

(** X6.  When at least [max_words // 2] words lie on each side of the
    position where the search stops, the result is that word with exactly
    [max_words // 2] words on each side: [2 * (max_words // 2) + 1]
    words. *)
Theorem trim_match_in_the_middle
    (sentence occurrence_word : string) (max_words p : Z) :
  0 <= max_words ->
  max_words < word_count sentence ->
  find_occurrence 0 (split sentence) (clean occurrence_word) = p ->
  max_words / 2 <= p ->
  max_words / 2 <= word_count sentence - p - 1 ->
  trim_sentence_with_occurrence sentence occurrence_word max_words
    = Ok (join " " (slice (split sentence)
                      (p - max_words / 2) (p + max_words / 2 + 1)))
  /\ Z.of_nat (length (slice (split sentence)
                         (p - max_words / 2) (p + max_words / 2 + 1)))
     = 2 * (max_words / 2) + 1.
Proof.
  intros Hm Hlong Hfind Hp Hn.
  pose proof (Z.div_pos max_words 2 Hm ltac:(lia)) as Hhalf.
  split.
  - apply trim_matched; [done | lia |]. rewrite Hfind.
    by apply window_centred.
  - unfold word_count in *. rewrite slice_length by lia. lia.
Qed.

Lemma trim_match_in_the_middle_witness :
  trim_sentence_with_occurrence "a b c Hund e f g" "hund" 4
    = Ok (join " " (slice (split "a b c Hund e f g") (3 - 4 / 2) (3 + 4 / 2 + 1)))
  /\ Z.of_nat (length (slice (split "a b c Hund e f g")
                         (3 - 4 / 2) (3 + 4 / 2 + 1)))
     = 2 * (4 / 2) + 1.
Proof.
  apply (trim_match_in_the_middle "a b c Hund e f g" "hund" 4 3);
    [lia | reflexivity | reflexivity | vm_compute; discriminate
     | vm_compute; discriminate].
Defined.

Lemma trim_word_count_bound_witness :
  word_count "c d e" <= 3 + 1 /\ (3 mod 2 = 1 -> word_count "c d e" <= 3).
Proof.
  apply (trim_word_count_bound "a b c d e f g" "d" "c d e" 3);
    [lia | reflexivity | reflexivity].
Defined.

Lemma window_at_least_half (n p m start end_ : Z) :
  0 <= p < n -> 0 <= m -> m < n -> window n p m = Ok (start, end_) ->
  m / 2 + 1 <= end_ - start.
Proof.
  intros Hp Hm Hmn. unfold window. rewrite !floordiv_2. cbn [bind].
  pose proof (Z.div_mod m 2 ltac:(lia)) as Hdm.
  pose proof (Z.mod_pos_bound m 2 ltac:(lia)) as Hmm.
  destruct (Z.ltb_spec 0
    (m - (Z.min p (m / 2) + Z.min (n - p - 1) (m / 2) + 1))) as [Hr|Hr];
    rewrite ?floordiv_2; cbn [bind]; intros [= <- <-].
  - set (r := m - (Z.min p (m / 2) + Z.min (n - p - 1) (m / 2) + 1)) in *.
    pose proof (Z.div_mod r 2 ltac:(lia)).
    pose proof (Z.mod_pos_bound r 2 ltac:(lia)).
    lia.
  - lia.
Qed.

(** X7.  Past the identity case, and for a budget of at least one word,
    the result has more than half the budget: at least
    [max_words // 2 + 1] words. *)
Theorem trim_keeps_half_the_budget
    (sentence occurrence_word out : string) (max_words : Z) :
  1 <= max_words -> max_words < word_count sentence ->
  trim_sentence_with_occurrence sentence occurrence_word max_words = Ok out ->
  max_words / 2 + 1 <= word_count out.
Proof.
  intros Hm Hlong Hout. unfold word_count in *.
  pose proof (Z.div_mod max_words 2 ltac:(lia)) as Hdm.
  pose proof (Z.mod_pos_bound max_words 2 ltac:(lia)) as Hmm.
  destruct (trim_cases sentence occurrence_word max_words)
    as [[Hle _] | [(_ & Hp & Heq) | (_ & Hp & start & end_ & Hw & Heq)]].
  - lia.
  - rewrite Heq in Hout. injection Hout as <-.
    rewrite split_join by (apply slice_sublist, split_words).
    rewrite slice_length by lia. lia.
  - rewrite Heq in Hout. injection Hout as <-.
    rewrite split_join by (apply slice_sublist, split_words).
    pose proof (find_occurrence_range _ _ _ eq_refl Hp) as Hrange.
    assert (0 <= max_words) as Hm0 by lia.
    pose proof (window_bounds _ _ _ _ _ Hrange Hm0 Hw)
      as (? & ? & ? & ? & ?).
    pose proof (window_at_least_half _ _ _ _ _ Hrange Hm0 Hlong Hw).
    rewrite slice_length by lia. lia.
Qed.

Lemma trim_keeps_half_the_budget_witness :
  20 / 2 + 1 <= word_count "x x x x x x x x x x x x Hund x x x x".
Proof.
  apply (trim_keeps_half_the_budget
           "x x x x x x x x x x x x x x x x x x x x Hund x x x x" "Hund"
           "x x x x x x x x x x x x Hund x x x x" 20);
    [lia | vm_compute; reflexivity | vm_compute; reflexivity].
Defined.

Lemma slice_all {A} (l : list A) :
  slice l 0 (Z.of_nat (length l)) = l.
Proof.
  rewrite slice_inside by lia. cbn. rewrite Z.sub_0_r, Nat2Z.id.
  apply firstn_all.
Qed.

(** The search in a slice that holds the position found in the whole
    list stops at the same word. *)
Lemma find_occurrence_slice (words : list string) (oc : string)
    (p start end_ : Z) :
  find_occurrence 0 words oc = p ->
  0 <= start -> start <= p -> p < end_ -> end_ <= Z.of_nat (length words) ->
  find_occurrence 0 (slice words start end_) oc = p - start.
Proof.
  intros Hfind Hs Hsp Hpe He.
  pose proof (find_occurrence_spec words oc 0) as H.
  destruct (list_find _ words) as [[k w]|] eqn:Hk; [|lia].
  apply list_find_Some in Hk as (Hk & Hw & Hbefore).
  assert (p = Z.of_nat k) as -> by lia.
  pose proof (find_occurrence_spec (slice words start end_) oc 0) as H'.
  assert (list_find (fun w => matches oc w = true) (slice words start end_)
          = Some (Z.to_nat (Z.of_nat k - start), w)) as Hslice.
  { apply list_find_Some. split; [|split; [done|]].
    - rewrite slice_lookup by lia. by rewrite Nat2Z.id.
    - intros j y Hj Hlt.
      assert (words !! Z.to_nat (start + Z.of_nat j) = Some y) as Hy.
      { rewrite <- Hj, <- (slice_lookup words start end_) by lia.
        f_equal. lia. }
      apply (Hbefore _ _ Hy). lia. }
  rewrite Hslice in H'. lia.
Qed.

Lemma window_over_budget (n p m start end_ : Z) :
  0 <= p < n -> 0 <= m -> window n p m = Ok (start, end_) ->
  m < end_ - start ->
  p - start = m / 2 /\ end_ - start = 2 * (m / 2) + 1 /\ m = 2 * (m / 2).
Proof.
  intros Hp Hm. unfold window. rewrite !floordiv_2. cbn [bind].
  pose proof (Z.div_mod m 2 ltac:(lia)) as Hdm.
  pose proof (Z.mod_pos_bound m 2 ltac:(lia)) as Hmm.
  destruct (Z.ltb_spec 0
    (m - (Z.min p (m / 2) + Z.min (n - p - 1) (m / 2) + 1))) as [Hr|Hr];
    rewrite ?floordiv_2; cbn [bind]; intros [= <- <-].
  - set (r := m - (Z.min p (m / 2) + Z.min (n - p - 1) (m / 2) + 1)) in *.
    pose proof (Z.div_mod r 2 ltac:(lia)).
    pose proof (Z.mod_pos_bound r 2 ltac:(lia)).
    lia.
  - lia.
Qed.

Lemma trim_short (sentence occurrence_word : string) (max_words : Z) :
  word_count sentence <= max_words ->
  trim_sentence_with_occurrence sentence occurrence_word max_words
    = Ok sentence.
Proof.
  unfold word_count. intros Hshort.
  destruct (trim_cases sentence occurrence_word max_words)
    as [[_ Heq] | [(Hlong & _) | (Hlong & _)]]; [done | lia | lia].
Qed.

(** X8.  Trimming is idempotent: the trimmer returns its own result
    unchanged, for the same occurrence word and budget. *)
Theorem trim_idempotent (sentence occurrence_word out : string)
    (max_words : Z) :
  0 <= max_words ->
  trim_sentence_with_occurrence sentence occurrence_word max_words = Ok out ->
  trim_sentence_with_occurrence out occurrence_word max_words = Ok out.
Proof.
  intros Hm Hout.
  pose proof (split_words sentence) as Hwords.
  destruct (trim_cases sentence occurrence_word max_words)
    as [[_ Heq] | [(Hlong & Hp & Heq) | (Hlong & Hp & start & end_ & Hw & Heq)]];
    rewrite Heq in Hout; injection Hout as <-.
  - done.
  - apply trim_short. unfold word_count.
    rewrite split_join by by apply slice_sublist.
    rewrite slice_length by lia. lia.
  - pose proof (find_occurrence_range _ _ _ eq_refl Hp) as Hrange.
    pose proof (window_bounds _ _ _ _ _ Hrange Hm Hw) as (? & ? & ? & ? & ?).
    set (ws := slice (split sentence) start end_).
    assert (split (join " " ws) = ws) as Hsplit
      by (apply split_join; by apply slice_sublist).
    assert (Z.of_nat (length ws) = end_ - start) as Hlen
      by (unfold ws; rewrite slice_length; lia).
    destruct (decide (end_ - start <= max_words)) as [Hfit|Hover].
    { apply trim_short. unfold word_count. rewrite Hsplit. lia. }
    destruct (window_over_budget _ _ _ _ _ Hrange Hm Hw ltac:(lia))
      as (Hmid & Hfull & Heven).
    pose proof (find_occurrence_slice (split sentence) (clean occurrence_word)
                  _ start end_ eq_refl ltac:(lia) ltac:(lia) ltac:(lia)
                  ltac:(lia)) as Hfind.
    fold ws in Hfind.
    etransitivity;
      [apply (trim_matched _ _ _ 0 (Z.of_nat (length ws)));
       unfold word_count; rewrite Hsplit
      | by rewrite Hsplit, slice_all].
    + lia.
    + rewrite Hfind. lia.
    + rewrite Hfind, Hmid, Hlen, Hfull.
      rewrite window_centred by lia. do 2 f_equal; lia.
Qed.

Lemma trim_idempotent_witness :
  trim_sentence_with_occurrence "b c Hund e f" "hund" 4
    = Ok "b c Hund e f"%string.
Proof.
  apply (trim_idempotent "a b c Hund e f g" "hund" "b c Hund e f" 4);
    [lia | reflexivity].
Defined.

(** X9.  When some word of the sentence passes the exact or the fuzzy
    test for the occurrence word, so does some word of the result: the
    trimmed sentence keeps a word that matches. *)
Theorem trim_keeps_a_matching_word
    (sentence occurrence_word word : string) (max_words : Z) :
  0 <= max_words -> word ∈ split sentence ->
  matches (clean occurrence_word) word = true ->
  exists out word',
    trim_sentence_with_occurrence sentence occurrence_word max_words = Ok out
    /\ word' ∈ split out
    /\ matches (clean occurrence_word) word' = true.
Proof.
  intros Hm Hin Hword.
  apply list_elem_of_lookup in Hin as [k Hk].
  pose proof (find_occurrence_found_before _ _ _ _ Hk Hword) as Hfound.
  destruct (trim_cases sentence occurrence_word max_words)
    as [[_ Heq] | [(_ & Hp & _) | (_ & Hp & start & end_ & Hw & Heq)]].
  - exists sentence, word. split; [done|]. split; [|done].
    by eapply list_elem_of_lookup_2.
  - lia.
  - pose proof (find_occurrence_range _ _ _ eq_refl Hp) as Hrange.
    pose proof (window_bounds _ _ _ _ _ Hrange Hm Hw) as (? & ? & ? & ? & ?).
    pose proof (find_occurrence_spec (split sentence)
                  (clean occurrence_word) 0) as Hspec.
    destruct (list_find _ (split sentence)) as [[i w]|] eqn:Hi; [|lia].
    apply list_find_Some in Hi as (Hi & Hwi & _).
    eexists _, w. split; [exact Heq|].
    rewrite split_join by (apply slice_sublist, split_words).
    split; [|done].
    eapply list_elem_of_lookup_2.
    rewrite (slice_lookup _ start end_ (Z.of_nat i)) by lia.
    by rewrite Nat2Z.id.
Qed.

Lemma trim_keeps_a_matching_word_witness :
  exists out word',
    trim_sentence_with_occurrence "a b c d e f (Hund) h i" "hund" 3 = Ok out
    /\ word' ∈ split out
    /\ matches (clean "hund") word' = true.
Proof.
  apply (trim_keeps_a_matching_word "a b c d e f (Hund) h i" "hund" "(Hund)" 3).
  - lia.
  - vm_compute. do 6 apply list_elem_of_further. apply list_elem_of_here.
  - reflexivity.
Defined.

(** * Further properties of the extractor *)

Lemma mention_of_qualifies (doc : Doc) (t : Token) (pos L : string) :
  (exists s w, mention_of doc t = Some (pos, (L, s, w)))
  <-> qualifies doc pos L t.
Proof.
  unfold mention_of, qualifies.
  destruct (tok_is_punct t); [naive_solver|].
  destruct (tok_is_space t); [naive_solver|]. cbn [orb].
  destruct (decide (strip (lower (tok_lemma_ t)) = EmptyString)) as [HL|HL];
    [naive_solver|].
  destruct (find_containing_sentence (doc_sents doc) t) as [s|];
    [|naive_solver].
  destruct (decide (s = EmptyString)); naive_solver.
Qed.

Lemma of_lemma_mentions_nonempty (doc : Doc) (pos L : string)
    (tokens : list Token) :
  of_lemma L (mentions doc pos tokens) <> []
  <-> exists t, t ∈ tokens /\ qualifies doc pos L t.
Proof.
  split.
  - intros Hne.
    destruct (of_lemma L (mentions doc pos tokens)) as [|[s w] l] eqn:Hl;
      [done|].
    assert ((s, w) ∈ of_lemma L (mentions doc pos tokens)) as Hsw
      by (rewrite Hl; left).
    unfold of_lemma, mentions in Hsw.
    apply list_elem_of_omap in Hsw as ([[L' s'] w'] & Hm & Hsw).
    destruct (decide (L' = L)) as [->|]; [|done]. injection Hsw as -> ->.
    apply list_elem_of_omap in Hm as (t & Ht & Hm).
    destruct (mention_of doc t) as [[p m]|] eqn:Hmt; [|done].
    destruct (decide (p = pos)) as [->|]; [|done]. injection Hm as ->.
    exists t. split; [done|]. apply mention_of_qualifies. eauto.
  - intros (t & Ht & Hq). apply mention_of_qualifies in Hq as (s & w & Hq).
    assert ((s, w) ∈ of_lemma L (mentions doc pos tokens)) as Hsw.
    { unfold of_lemma, mentions. apply list_elem_of_omap.
      exists (L, s, w). split; [|by rewrite decide_True].
      apply list_elem_of_omap. exists t. split; [done|].
      rewrite Hq. by rewrite decide_True. }
    intros Hnil. rewrite Hnil in Hsw. by apply elem_of_nil in Hsw.
Qed.

(** X10.  For a text that is not blank, the nouns are exactly the
    lower-cased, stripped lemmas of the tokens tagged [NOUN] that are
    neither punctuation nor space, have a non-empty lemma and lie in a
    sentence whose text is not blank; likewise the verbs for [VERB] and
    the adjectives for [ADJ].  Tokens with any other tag add nothing. *)
Theorem lemma_lists_are_the_qualifying_lemmas (nlp : string -> Doc)
    (text : string) :
  strip text <> EmptyString ->
  exists r,
    extract_pos_tags nlp text = Ok r
    /\ let doc := nlp text in
       (forall L, L ∈ nouns r <->
          exists t, t ∈ doc_tokens doc /\ qualifies doc "NOUN" L t)
       /\ (forall L, L ∈ verbs r <->
             exists t, t ∈ doc_tokens doc /\ qualifies doc "VERB" L t)
       /\ (forall L, L ∈ adjectives r <->
             exists t, t ∈ doc_tokens doc /\ qualifies doc "ADJ" L t).
Proof.
  intros Hne.
  destruct (extract_cases nlp text)
    as [[Hblank _] | (_ & st & _ & (Hn & Hv & Ha) & Hr)]; [done|].
  rewrite build_result_ok in Hr. eexists. split; [exact Hr|]. cbn.
  repeat split; intros H;
    first [ apply elem_of_sorted_elements in H
          | apply elem_of_sorted_elements ];
    first [ apply (inv_lemmas _ _ Hn), of_lemma_mentions_nonempty in H
          | apply (inv_lemmas _ _ Hv), of_lemma_mentions_nonempty in H
          | apply (inv_lemmas _ _ Ha), of_lemma_mentions_nonempty in H
          | apply (inv_lemmas _ _ Hn), of_lemma_mentions_nonempty
          | apply (inv_lemmas _ _ Hv), of_lemma_mentions_nonempty
          | apply (inv_lemmas _ _ Ha), of_lemma_mentions_nonempty ];
    done.
Qed.

Lemma lemma_lists_are_the_qualifying_lemmas_witness :
  exists r,
    extract_pos_tags nlp_hund "Der Hund sieht den Hund. Der Hund bellt." = Ok r
    /\ forall L, L ∈ verbs r <->
         exists t, t ∈ doc_tokens doc_hund /\ qualifies doc_hund "VERB" L t.
Proof.
  destruct (lemma_lists_are_the_qualifying_lemmas nlp_hund
              "Der Hund sieht den Hund. Der Hund bellt.")
    as (r & Hr & _ & Hv & _); [vm_compute; discriminate|].
  exists r. split; [exact Hr | exact Hv].
Defined.

Lemma rstrip_all_space (s : string) :
  all_space (rstrip_by isspace s) = true ->
  rstrip_by isspace s = EmptyString.
Proof.
  induction s as [|c s IH]; [done|]. cbn.
  destruct (rstrip_by isspace s) as [|d r] eqn:Hr.
  - destruct (isspace c) eqn:Hc; [done|]. cbn. by rewrite Hc.
  - cbn. intros [_ Hall]%andb_true_iff. by specialize (IH Hall).
Qed.

Lemma split_go_nil (s cur : string) :
  split_go cur s = [] -> cur = EmptyString /\ all_space s = true.
Proof.
  revert cur. induction s as [|c s IH]; intros cur; cbn.
  - by destruct cur.
  - destruct (isspace c) eqn:Hc.
    + destruct cur; [|done]. intros H. by apply IH in H as [_ ->].
    + intros H. apply IH in H as [Hcur _]. by destruct cur.
Qed.

(** A stripped text that is not empty has a word. *)
Lemma strip_word_count (s : string) :
  strip s <> EmptyString -> 1 <= word_count (strip s).
Proof.
  intros Hne. unfold word_count.
  destruct (split (strip s)) as [|w ws] eqn:Hsplit; [|cbn; lia].
  apply split_go_nil in Hsplit as [_ Hall].
  by apply rstrip_all_space in Hall.
Qed.

Lemma trim_word_count_range (sentence occurrence_word out : string)
    (max_words : Z) :
  1 <= max_words -> 1 <= word_count sentence ->
  trim_sentence_with_occurrence sentence occurrence_word max_words = Ok out ->
  1 <= word_count out <= max_words + 1.
Proof.
  intros Hm Hone Hout. unfold word_count in *.
  assert (0 <= max_words) as Hm0 by lia.
  pose proof (Z.div_pos max_words 2 Hm0 ltac:(lia)) as Hhalf.
  destruct (trim_cases sentence occurrence_word max_words)
    as [[Hle Heq] | [(Hlong & Hp & Heq) | (Hlong & Hp & start & end_ & Hw & Heq)]];
    rewrite Heq in Hout; injection Hout as <-.
  - lia.
  - rewrite split_join by (apply slice_sublist, split_words).
    rewrite slice_length by lia. lia.
  - rewrite split_join by (apply slice_sublist, split_words).
    pose proof (find_occurrence_range _ _ _ eq_refl Hp) as Hrange.
    pose proof (window_bounds _ _ _ _ _ Hrange Hm0 Hw) as (? & ? & ? & ? & ?).
    pose proof (window_at_least_half _ _ _ _ _ Hrange Hm0 Hlong Hw).
    rewrite slice_length by lia. lia.
Qed.

Lemma Forall2_elem_of_l {A B} (R : A -> B -> Prop) (l : list A)
    (k : list B) (x : A) :
  Forall2 R l k -> x ∈ l -> exists y, y ∈ k /\ R x y.
Proof.
  intros HF Hx. apply list_elem_of_lookup in Hx as [i Hi].
  destruct (Forall2_lookup_l _ _ _ _ _ HF Hi) as (y & Hy & HR).
  exists y. split; [by eapply list_elem_of_lookup_2 | done].
Qed.

(** Every entry built from the state of a category comes from a token of
    that category, and its phrase has between 1 and 21 words. *)
Lemma bucket_entries_from (doc : Doc) (key_name pos : string) (b : Bucket) :
  bucket_inv b (mentions doc pos (doc_tokens doc)) ->
  Forall (fun o => entry_from doc pos o
                   /\ 1 <= word_count (occ_phrase o) <= 21)
    (entries key_name (occurrences b)
       (sorted (elements (dom (occurrences b))))).
Proof.
  intros [_ _ Hocc]. apply Forall_forall. intros o Ho.
  apply elem_of_entries in Ho as (k & phrases & phrase & _ & Hk & Hph & ->).
  specialize (Hocc k). rewrite Hk in Hocc. destruct Hocc as [_ Hall].
  destruct (Forall2_elem_of_l _ _ _ _ Hall Hph) as ([s w] & Hsw & Htrim).
  eapply elem_of_sublist in Hsw; [|apply first_seen_sublist].
  unfold of_lemma, mentions in Hsw.
  apply list_elem_of_omap in Hsw as ([[L' s'] w'] & Hm & Hsw).
  destruct (decide (L' = k)) as [->|]; [|done]. injection Hsw as -> ->.
  apply list_elem_of_omap in Hm as (t & Ht & Hm).
  destruct (mention_of doc t) as [[p m]|] eqn:Hmt; [|done].
  destruct (decide (p = pos)) as [->|]; [|done]. injection Hm as ->.
  apply mention_of_token in Hmt
    as (-> & -> & -> & _ & Hs & sent & Hsent & Hin & ->).
  unfold phrase_for in Htrim. cbn in Htrim. split.
  - by exists t, sent.
  - apply (trim_word_count_range _ _ _ 20 ltac:(lia)
             (strip_word_count _ Hs) Htrim).
Qed.

(** X11.  Every entry of the three occurrence lists comes from a token of
    the document with the list's POS tag: its lemma is the token's
    lower-cased, stripped lemma, and its phrase is what the trimmer
    returns for the stripped text of a sentence that holds the token; the
    phrase has at least 1 and at most 21 words. *)
Theorem entries_come_from_tokens (nlp : string -> Doc) (text : string) :
  exists r,
    extract_pos_tags nlp text = Ok r
    /\ let doc := nlp text in
       Forall (fun o => entry_from doc "NOUN" o
                        /\ 1 <= word_count (occ_phrase o) <= 21)
         (noun_occurrences r)
       /\ Forall (fun o => entry_from doc "VERB" o
                           /\ 1 <= word_count (occ_phrase o) <= 21)
            (verb_occurrences r)
       /\ Forall (fun o => entry_from doc "ADJ" o
                           /\ 1 <= word_count (occ_phrase o) <= 21)
            (adjective_occurrences r).
Proof.
  destruct (extract_cases nlp text)
    as [[_ Hr] | (_ & st & _ & (Hn & Hv & Ha) & Hr)].
  - exists empty_result. split; [done|]. cbn. repeat split; constructor.
  - rewrite build_result_ok in Hr. eexists. split; [exact Hr|]. cbn.
    repeat split; by apply bucket_entries_from.
Qed.

Lemma lower_char_idem (c : ascii) : lower_char (lower_char c) = lower_char c.
Proof. by destruct c as [[] [] [] [] [] [] [] []]. Qed.

Lemma isspace_lower_char (c : ascii) : isspace (lower_char c) = isspace c.
Proof. by destruct c as [[] [] [] [] [] [] [] []]. Qed.

Lemma lower_idem (s : string) : lower (lower s) = lower s.
Proof.
  induction s as [|c s IH]; [done|]. cbn. by rewrite lower_char_idem, IH.
Qed.

Lemma lower_lstrip (s : string) :
  lower (lstrip_by isspace s) = lstrip_by isspace (lower s).
Proof.
  induction s as [|c s IH]; [done|]. cbn. rewrite isspace_lower_char.
  by destruct (isspace c).
Qed.

Lemma lower_rstrip (s : string) :
  lower (rstrip_by isspace s) = rstrip_by isspace (lower s).
Proof.
  induction s as [|c s IH]; [done|]. cbn. rewrite <- IH, isspace_lower_char.
  destruct (rstrip_by isspace s); cbn; [by destruct (isspace c) | done].
Qed.

Lemma lower_strip (s : string) : lower (strip s) = strip (lower s).
Proof. unfold strip, strip_by. by rewrite lower_rstrip, lower_lstrip. Qed.

Lemma rstrip_cons (drop : ascii -> bool) (c : ascii) (s : string) :
  rstrip_by drop (String c s) =
    match rstrip_by drop s with
    | EmptyString => if drop c then EmptyString else String c EmptyString
    | r => String c r
    end.
Proof. reflexivity. Qed.

Lemma rstrip_idem (s : string) :
  rstrip_by isspace (rstrip_by isspace s) = rstrip_by isspace s.
Proof.
  induction s as [|c s IH]; [done|]. rewrite rstrip_cons.
  destruct (rstrip_by isspace s) as [|d r] eqn:Hr.
  - destruct (isspace c) eqn:Hc; [done|]. cbn. by rewrite Hc.
  - by rewrite rstrip_cons, IH.
Qed.

Lemma lstrip_rstrip_lstrip (s : string) :
  lstrip_by isspace (rstrip_by isspace (lstrip_by isspace s))
  = rstrip_by isspace (lstrip_by isspace s).
Proof.
  induction s as [|c s IH]; [done|]. cbn [lstrip_by].
  destruct (isspace c) eqn:Hc; [done|]. rewrite rstrip_cons.
  destruct (rstrip_by isspace s); rewrite ?Hc; cbn; by rewrite Hc.
Qed.

Lemma strip_idem (s : string) : strip (strip s) = strip s.
Proof.
  unfold strip, strip_by. by rewrite lstrip_rstrip_lstrip, rstrip_idem.
Qed.

Lemma qualifies_normalised (doc : Doc) (pos L : string) (t : Token) :
  qualifies doc pos L t -> normalised L.
Proof.
  intros (_ & _ & _ & <- & Hne & _). split; [done|].
  by rewrite lower_strip, lower_idem, strip_idem.
Qed.

(** X12.  Every lemma the result lists is normalised: it is not empty, it
    is in lower case and it has no whitespace at either end. *)
Theorem listed_lemmas_are_normalised (nlp : string -> Doc) (text : string) :
  exists r,
    extract_pos_tags nlp text = Ok r
    /\ Forall normalised (nouns r)
    /\ Forall normalised (verbs r)
    /\ Forall normalised (adjectives r).
Proof.
  destruct (extract_cases nlp text)
    as [[_ Hr] | (_ & st & _ & (Hn & Hv & Ha) & Hr)].
  - exists empty_result. split; [done|]. cbn. repeat split; constructor.
  - rewrite build_result_ok in Hr. eexists. split; [exact Hr|]. cbn.
    repeat split; apply Forall_forall; intros L HL;
      apply elem_of_sorted_elements in HL;
      [ apply (inv_lemmas _ _ Hn), of_lemma_mentions_nonempty in HL
      | apply (inv_lemmas _ _ Hv), of_lemma_mentions_nonempty in HL
      | apply (inv_lemmas _ _ Ha), of_lemma_mentions_nonempty in HL ];
      destruct HL as (t & _ & Hq); by eapply qualifies_normalised.
Qed.

(** * Further properties of the entry point *)


(** X13.  When the input is JSON but not a JSON object (a list, a number,
    a string, [null], a bool), [data.get] does not exist: the run ends in
    the exception handler with the [AttributeError] for [get], and no
    result is printed. *)
Theorem main_json_not_an_object
    (json_loads : string -> loads_result) (nlp : string -> Doc)
    (input_data : string) (data : pyval) :
  input_data <> EmptyString ->
  json_loads input_data = Loaded data ->
  (forall items, data <> PyDict items) ->
  main json_loads nlp input_data
    = CaughtException (AttributeError (py_type_name data) "get").
Proof.
  intros Hne Hjson Hnot. unfold main, read_transcript. rewrite Hjson.
  destruct (String.eqb_spec input_data ""); [done|].
  destruct data as [s|items|ty truth]; [done | | done].
  by destruct (Hnot items).
Qed.

Lemma main_json_not_an_object_witness :
  main (decoder_returning (PyOther "list" true)) nlp_hund "[1, 2]"
    = CaughtException (AttributeError "list" "get").
Proof.
  apply (main_json_not_an_object (decoder_returning (PyOther "list" true))
           nlp_hund "[1, 2]" (PyOther "list" true));
    [discriminate | reflexivity | discriminate].
Defined.

(** X14.  When the input is a JSON object: without the key [transcript],
    or with an empty string or another false value under it, the run ends
    with the error ["Transcript is empty"]; with a non-empty string under
    it, that string goes to the extractor as it is, not stripped; with a
    true value that is not a string, the run ends in the exception
    handler with the [AttributeError] for [strip]. *)
Theorem main_json_object
    (json_loads : string -> loads_result) (nlp : string -> Doc)
    (input_data : string) (items : list (string * pyval)) :
  input_data <> EmptyString ->
  json_loads input_data = Loaded (PyDict items) ->
  main json_loads nlp input_data =
    match dict_lookup items "transcript" with
    | None => PrintedError "Transcript is empty"
    | Some (PyStr text) =>
        if String.eqb text "" then PrintedError "Transcript is empty"
        else run_extraction nlp text
    | Some v =>
        if truthy v
        then CaughtException (AttributeError (py_type_name v) "strip")
        else PrintedError "Transcript is empty"
    end.
Proof.
  intros Hne Hjson. unfold main, read_transcript. rewrite Hjson.
  destruct (String.eqb_spec input_data ""); [done|]. cbn.
  destruct (dict_lookup items "transcript") as [[text|items'|ty truth]|];
    cbn; [by destruct (String.eqb text "") | | | done].
  - by destruct items'.
  - by destruct truth.
Qed.

Lemma main_json_object_witness :
  main (decoder_returning (PyDict [("transcript"%string, PyStr " Der Hund ")]))
       nlp_hund "{..}"
    = run_extraction nlp_hund " Der Hund ".
Proof.
  apply (main_json_object
           (decoder_returning (PyDict [("transcript"%string, PyStr " Der Hund ")]))
           nlp_hund "{..}" [("transcript"%string, PyStr " Der Hund ")]);
    [discriminate | reflexivity].
Defined.

(** X15.  A JSON object whose transcript is a non-empty string of
    whitespace only is not an error: the run prints the result with six
    empty fields.  (The same text as raw input ends with the error
    ["Transcript is empty"].) *)
Theorem main_json_blank_transcript
    (json_loads : string -> loads_result) (nlp : string -> Doc)
    (input_data text : string) (items : list (string * pyval)) :
  input_data <> EmptyString ->
  json_loads input_data = Loaded (PyDict items) ->
  dict_lookup items "transcript" = Some (PyStr text) ->
  text <> EmptyString -> all_space text = true ->
  main json_loads nlp input_data = PrintedResult empty_result.
Proof.
  intros Hne Hjson Hlookup Htext Hblank.
  unfold main, read_transcript. rewrite Hjson.
  destruct (String.eqb_spec input_data ""); [done|]. cbn. rewrite Hlookup.
  cbn. destruct (String.eqb_spec text ""); [done|]. cbn.
  unfold extract_pos_tags. rewrite (strip_all_space _ Hblank). cbn.
  by rewrite orb_true_r.
Qed.

Lemma main_json_blank_transcript_witness :
  main (decoder_returning (PyDict [("transcript"%string, PyStr "   ")]))
       nlp_hund "{..}"
    = PrintedResult empty_result.
Proof.
  apply (main_json_blank_transcript
           (decoder_returning (PyDict [("transcript"%string, PyStr "   ")]))
           nlp_hund "{..}" "   " [("transcript"%string, PyStr "   ")]);
    [discriminate | reflexivity | reflexivity | discriminate | reflexivity].
Defined.

(** X16.  A result is printed only for a transcript that is a non-empty
    string, and it is what the extractor returns for that string. *)
Theorem main_printed_result
    (json_loads : string -> loads_result) (nlp : string -> Doc)
    (input_data : string) (r : Result) :
  main json_loads nlp input_data = PrintedResult r ->
  exists text,
    input_data <> EmptyString
    /\ text <> EmptyString
    /\ read_transcript json_loads input_data = Ok (PyStr text)
    /\ extract_pos_tags nlp text = Ok r.
Proof.
  unfold main. destruct (String.eqb_spec input_data ""); [done|].
  destruct (read_transcript json_loads input_data) as [v|e]; [|done].
  destruct (truthy v) eqn:Hv; cbn; [|done].
  destruct v as [text|items|ty truth]; cbn in *.
  - destruct (extract_pos_tags nlp text) as [r'|e] eqn:Hr; [|done].
    intros [= ->]. exists text. repeat split; try done.
    intros ->. done.
  - by rewrite Hv.
  - by rewrite Hv.
Qed.

Lemma main_printed_result_witness :
  exists text,
    berlin_line <> EmptyString
    /\ text <> EmptyString
    /\ read_transcript refusing_decoder berlin_line = Ok (PyStr text)
    /\ extract_pos_tags nlp_hund text = Ok result_hund.
Proof.
  apply (main_printed_result refusing_decoder nlp_hund berlin_line
           result_hund).
  vm_compute. reflexivity.
Defined.



(** * Further properties: the end of the sentence, the number of phrases *)

Lemma window_last_word (n m start end_ : Z) :
  3 <= m -> m < n -> window n (n - 1) m = Ok (start, end_) ->
  end_ = n /\ end_ - start < m.
Proof.
  intros Hm Hmn. unfold window. rewrite !floordiv_2. cbn [bind].
  pose proof (Z.div_mod m 2 ltac:(lia)) as Hdm.
  pose proof (Z.mod_pos_bound m 2 ltac:(lia)) as Hmm.
  destruct (Z.ltb_spec 0
    (m - (Z.min (n - 1) (m / 2) + Z.min (n - (n - 1) - 1) (m / 2) + 1)))
    as [Hr|Hr];
    rewrite ?floordiv_2; cbn [bind]; intros [= <- <-].
  - set (r := m - (Z.min (n - 1) (m / 2)
                   + Z.min (n - (n - 1) - 1) (m / 2) + 1)) in *.
    pose proof (Z.div_mod r 2 ltac:(lia)).
    pose proof (Z.mod_pos_bound r 2 ltac:(lia)).
    lia.
  - lia.
Qed.

(** X18.  The budget is not always used up: when the search stops at the
    last word of a sentence of more than [max_words] words, only half of
    what the right side leaves goes to the left, and for a budget of 3
    words or more the result has fewer than [max_words] words. *)
Theorem trim_match_at_last_word
    (sentence occurrence_word out : string) (max_words : Z) :
  3 <= max_words -> max_words < word_count sentence ->
  find_occurrence 0 (split sentence) (clean occurrence_word)
    = word_count sentence - 1 ->
  trim_sentence_with_occurrence sentence occurrence_word max_words = Ok out ->
  word_count out < max_words.
Proof.
  intros Hm Hlong Hfind Hout. unfold word_count in *.
  destruct (trim_cases sentence occurrence_word max_words)
    as [[Hle _] | [(_ & Hp & _) | (_ & Hp & start & end_ & Hw & Heq)]];
    [lia | lia |].
  rewrite Heq in Hout. injection Hout as <-.
  rewrite split_join by (apply slice_sublist, split_words).
  rewrite Hfind in Hw.
  assert (0 <= max_words) as Hm0 by lia.
  assert (0 <= Z.of_nat (length (split sentence)) - 1
          < Z.of_nat (length (split sentence))) as Hrange by lia.
  pose proof (window_bounds _ _ _ _ _ Hrange Hm0 Hw) as (? & ? & ? & ? & ?).
  pose proof (window_last_word _ _ _ _ Hm Hlong Hw) as [_ Hless].
  rewrite slice_length by lia. lia.
Qed.

Lemma trim_match_at_last_word_witness :
  word_count "m n o p q r s t u v w x y z Hund" < 20.
Proof.
  apply (trim_match_at_last_word
           "a b c d e f g h i j k l m n o p q r s t u v w x y z Hund" "Hund"
           "m n o p q r s t u v w x y z Hund" 20);
    [lia | vm_compute; reflexivity | vm_compute; reflexivity
     | vm_compute; reflexivity].
Defined.

Lemma kept_sentences_bound (doc : Doc) (pos L : string) :
  (length (first_seen [] (of_lemma L (mentions doc pos (doc_tokens doc))))
   <= length (doc_sents doc))%nat.
Proof.
  set (kept := first_seen [] _).
  rewrite <- (length_fmap fst kept).
  rewrite <- (length_fmap (fun sent => strip (sent_text sent)) (doc_sents doc)).
  apply submseteq_length, NoDup_submseteq.
  - apply first_seen_sentences.
  - intros s Hs. apply list_elem_of_fmap in Hs as ([s' w] & -> & Hsw).
    eapply elem_of_sublist in Hsw; [|apply first_seen_sublist].
    apply of_lemma_mentions_token
      in Hsw as (t & sent & _ & Hsent & _ & _ & _ & [= -> _]).
    apply list_elem_of_fmap. by exists sent.
Qed.

(** X19.  In each category a lemma has at most as many phrases as the
    document has sentences. *)
Theorem phrases_per_lemma_bound (nlp : string -> Doc) (text L : string) :
  exists r,
    extract_pos_tags nlp text = Ok r
    /\ (length (phrases_of L (noun_occurrences r))
        <= length (doc_sents (nlp text)))%nat
    /\ (length (phrases_of L (verb_occurrences r))
        <= length (doc_sents (nlp text)))%nat
    /\ (length (phrases_of L (adjective_occurrences r))
        <= length (doc_sents (nlp text)))%nat.
Proof.
  destruct (extract_cases nlp text)
    as [[_ Hr] | (_ & st & _ & (Hn & Hv & Ha) & Hr)].
  - exists empty_result. split; [done|]. cbn. repeat split; lia.
  - rewrite build_result_ok in Hr. eexists. split; [exact Hr|]. cbn.
    repeat split.
    + fold (phrases_of L (entries "noun" (occurrences (noun st))
              (sorted (elements (dom (occurrences (noun st))))))).
      rewrite (Forall2_length _ _ _ (bucket_phrases "noun" L _ _ Hn)).
      apply kept_sentences_bound.
    + fold (phrases_of L (entries "infinitive" (occurrences (verb st))
              (sorted (elements (dom (occurrences (verb st))))))).
      rewrite (Forall2_length _ _ _ (bucket_phrases "infinitive" L _ _ Hv)).
      apply kept_sentences_bound.
    + fold (phrases_of L (entries "adjective" (occurrences (adjective st))
              (sorted (elements (dom (occurrences (adjective st))))))).
      rewrite (Forall2_length _ _ _ (bucket_phrases "adjective" L _ _ Ha)).
      apply kept_sentences_bound.
Qed.
